(** * Back In Time: the udev-rule service helper and the process executor

    A shallow embedding of

    - [qt/serviceHelper.py]: the D-Bus service [UdevRules] that stages udev
      rules per bus connection, validates the untrusted strings it is sent,
      and writes or removes the per-user rule file after a polkit check;
    - [common/tools.py]: the capability probe [rsyncCaps] and the class
      [Execute] that runs a child process and forwards signals to it.

    Python [str] values are modelled as [string]; a character of the model is
    a code point below 256.  Every pattern of the two files that tells
    characters apart does so on ASCII characters only, and treats every
    character from 128 on alike. *)

From Stdlib Require Import Ascii String ZArith.
From stdpp Require Import base option list gmap strings fin_maps pretty.
From Equations Require Import Equations.

Local Open Scope string_scope.
Local Open Scope Z_scope.

(** ** Python strings *)

Module Py.

Definition chr (n : nat) : ascii := ascii_of_nat n.
Definition ord (c : ascii) : nat := nat_of_ascii c.

Definition LF : ascii := chr 10.
Definition CR : ascii := chr 13.
Definition DQUOTE : ascii := chr 34.

Definition str1 (c : ascii) : string := String c EmptyString.

(** [not s]: a string is falsy exactly when it is empty. *)
Definition is_empty (s : string) : bool :=
  match s with EmptyString => true | String _ _ => false end.

Definition in_range (lo hi : nat) (c : ascii) : bool :=
  (lo <=? ord c)%nat && (ord c <=? hi)%nat.

(** [str.isspace] on one character, which is also the class [\s] of [re]
    for [str] patterns: TAB LF VT FF CR, FS GS RS US, SPACE, NEL, NBSP. *)
Definition isspace (c : ascii) : bool :=
  in_range 9 13 c || in_range 28 32 c
  || (ord c =? 133)%nat || (ord c =? 160)%nat.

(** The class [\d] of [re]: among the code points below 256 the decimal
    digits are 0 to 9. *)
Definition isdigit (c : ascii) : bool := in_range 48 57 c.

(** [s.startswith(p)] *)
Fixpoint startswith (p s : string) : bool :=
  match p, s with
  | EmptyString, _ => true
  | String a p', String b s' =>
      if ascii_dec a b then startswith p' s' else false
  | String _ _, EmptyString => false
  end.

(** [s.find(sub)]: the lowest index at which [sub] occurs in [s], or -1. *)
Fixpoint find_from (i : Z) (sub s : string) : Z :=
  if startswith sub s then i
  else match s with
       | EmptyString => -1
       | String _ s' => find_from (i + 1) sub s'
       end.

Definition find (sub s : string) : Z := find_from 0 sub s.

(** [s.split()] with no separator: the maximal runs of non-space
    characters.  [tok] is the run being read. *)
Fixpoint split_from (tok s : string) : list string :=
  match s with
  | EmptyString => if is_empty tok then [] else [tok]
  | String c s' =>
      if isspace c
      then (if is_empty tok then split_from EmptyString s'
            else tok :: split_from EmptyString s')
      else split_from (tok +:+ str1 c) s'
  end.

Definition split (s : string) : list string := split_from EmptyString s.

(** [re.findall] of a pattern that is one character class: the characters
    of [s] in the class, in order. *)
Definition findall (class : ascii -> bool) (s : string) : list ascii :=
  filter (fun c => class c = true) (list_ascii_of_string s).

(** [s.split(sep)] with a separator of one character: the pieces between
    the separators, empty ones included.  [piece] is the piece being
    read. *)
Fixpoint split_on_from (sep : ascii) (piece s : string) : list string :=
  match s with
  | EmptyString => [piece]
  | String c s' =>
      if ascii_dec c sep then piece :: split_on_from sep EmptyString s'
      else split_on_from sep (piece +:+ str1 c) s'
  end.

Definition split_on (sep : ascii) (s : string) : list string :=
  split_on_from sep EmptyString s.

(** [s.lstrip(chars)], [s.rstrip(chars)] and [s.strip(chars)] *)
Fixpoint lstrip (chars : ascii -> bool) (s : string) : string :=
  match s with
  | EmptyString => EmptyString
  | String c s' => if chars c then lstrip chars s' else s
  end.

Fixpoint rstrip (chars : ascii -> bool) (s : string) : string :=
  match s with
  | EmptyString => EmptyString
  | String c s' =>
      match rstrip chars s' with
      | EmptyString => if chars c then EmptyString else str1 c
      | t => String c t
      end
  end.

Definition strip (chars : ascii -> bool) (s : string) : string :=
  rstrip chars (lstrip chars s).

(** What is left of [s] after the literal [p], when [s] starts with it. *)
Fixpoint after (p s : string) : option string :=
  match p, s with
  | EmptyString, _ => Some s
  | String a p', String b s' => if ascii_dec a b then after p' s' else None
  | String _ _, EmptyString => None
  end.

(** [''.join(lines)] *)
Definition join (lines : list string) : string :=
  foldr String.append EmptyString lines.

End Py.

(** ** Results of calls that may raise *)

Inductive InvalidCmdReason :=
| ContainsConcatenation   (* "Parameter 'cmd' contains '&&' concatenation" *)
| NotAbsolute             (* "Parameter 'cmd' does not start with '/'" *)
| NoBackintimeCommand     (* "... does not contain the backintime command" *)
| NotWhitelisted (part : string).
                          (* "... contains non-whitelisted cmd/parameter" *)

Inductive Limit :=
| MaxRules                     (* "Maximum number of cached rules reached" *)
| MaxUsers                     (* "Maximum number of cached users reached" *)
| MaxCmdLen.                   (* "Maximum length of command line reached" *)

(** The exceptions the two files raise or let through.  [InvalidChar] carries
    the name of the parameter and the characters [re.findall] returned; the
    message joins the set of them, in no fixed order. *)
Inductive Exception :=
| InvalidChar (param : string) (chars : list ascii)
| InvalidCmd (why : InvalidCmdReason)
| LimitExceeded (which : Limit)
| PermissionDeniedByPolicy (privilege : string)
| DBusException (dbus_error_name : string)
| RecursionError
| ValueError
| OSError
| InvalidVersion (version : string)
| OtherException (name : string).

Inductive Result (A : Type) :=
| Ok (a : A)
| Raise (e : Exception).
Arguments Ok {A} a.
Arguments Raise {A} e.

Definition is_Ok {A} (r : Result A) : bool :=
  match r with Ok _ => true | Raise _ => false end.

(** The two validation failures of the service. *)
Definition is_validation_error (e : Exception) : bool :=
  match e with
  | InvalidChar _ _ | InvalidCmd _ => true
  | _ => false
  end.

Definition validation_failure {A} (r : Result A) : option Exception :=
  match r with
  | Raise e => if is_validation_error e then Some e else None
  | Ok _ => None
  end.

(** ** The D-Bus service [UdevRules] *)

Module ServiceHelper.

Definition FS := gmap string string.

(** What a call can read and change: the attributes [enforce_polkit] and
    [tmpDict] of the service object, and the files below [/etc/udev].
    [fs_log] records the file system after each change a call has made to
    it, oldest first: the states another process can find it in. *)
Record World := mkWorld {
  enforce_polkit : bool;
  tmpDict : gmap string (list string);
  fs : FS;
  fs_log : list FS
}.

Definition M (A : Type) : Type := World -> Result A * World.

#[export] Instance M_ret : MRet M := fun A a w => (Ok a, w).
#[export] Instance M_bind : MBind M := fun A B k m w =>
  match m w with
  | (Ok a, w') => k a w'
  | (Raise e, w') => (Raise e, w')
  end.

Definition raise {A} (e : Exception) : M A := fun w => (Raise e, w).
Definition get : M World := fun w => (Ok w, w).
Definition set_tmpDict (d : gmap string (list string)) : M unit := fun w =>
  (Ok tt, mkWorld (enforce_polkit w) d (fs w) (fs_log w)).
Definition set_fs (f : FS) : M unit := fun w =>
  (Ok tt, mkWorld (enforce_polkit w) (tmpDict w) f (fs_log w ++ [f])).

(** *** The bus and polkit *)

(** The introspection interface of the bus a call arrived on. *)
Record Connection := {
  GetConnectionUnixUser : string -> string; (* the name [pwd] gives the uid *)
  GetNameOwner : string -> string
}.

Record SenderInfo := mkSenderInfo {
  sender : string;
  dbus_info : Connection
}.

Definition connectionUnixUser (info : SenderInfo) : string :=
  GetConnectionUnixUser (dbus_info info) (sender info).

Definition nameOwner (info : SenderInfo) : string :=
  GetNameOwner (dbus_info info) (sender info).

(** One answer of [polkit.CheckAuthorization]: the flag [is_auth], or a
    [dbus.DBusException] with its error name. *)
Inductive PolkitReply :=
| Reply (is_auth : bool)
| Error (dbus_error_name : string).

(** The answers polkit gives during one call of the service, by subject,
    privilege and number of the attempt. *)
Definition Polkit := option string -> string -> nat -> PolkitReply.

Definition ServiceUnknown : string :=
  "org.freedesktop.DBus.Error.ServiceUnknown".

(** The two privileges the service asks polkit for. *)
Definition UdevRuleSave : string := "net.launchpad.backintime.UdevRuleSave".
Definition UdevRuleDelete : string := "net.launchpad.backintime.UdevRuleDelete".

(** *** Files *)

Definition UDEV_RULES_PATH (user : string) : string :=
  "/etc/udev/rules.d/99-backintime-" +:+ user +:+ ".rules".

(** Reading in text mode translates the line ends CR LF and CR to LF. *)
Fixpoint universal_newlines (s : string) : string :=
  match s with
  | EmptyString => EmptyString
  | String c s' =>
      if ascii_dec c Py.CR then
        match s' with
        | String d s'' =>
            if ascii_dec d Py.LF then String Py.LF (universal_newlines s'')
            else String Py.LF (universal_newlines s')
        | EmptyString => String Py.LF EmptyString
        end
      else String c (universal_newlines s')
  end.

(** The lines of a text, each with its line end; [line] is the line being
    read. *)
Fixpoint lines_from (line s : string) : list string :=
  match s with
  | EmptyString => if Py.is_empty line then [] else [line]
  | String c s' =>
      if ascii_dec c Py.LF
      then (line +:+ Py.str1 c) :: lines_from EmptyString s'
      else lines_from (line +:+ Py.str1 c) s'
  end.

(** [open(path, 'r').readlines()] on the content of a file *)
Definition readlines (content : string) : list string :=
  lines_from EmptyString (universal_newlines content).

(** [with open(path, 'w') as f: f.writelines(lines)]: opening creates the
    file or truncates it; the lines reach it when the buffer is flushed,
    on leaving the [with] block at the latest. *)
Definition write_file (path : string) (lines : list string) : M unit :=
  w ← get;
  set_fs (<[path := EmptyString]> (fs w));;
  w ← get;
  set_fs (<[path := Py.join lines]> (fs w)).

(** [os.remove(path)] *)
Definition remove (path : string) : M unit :=
  w ← get;
  set_fs (delete path (fs w)).

(** *** The service object *)

Section UdevRules.

(** The paths [__init__] resolves with [which], and the number of nested
    calls the interpreter still allows when a call of the service
    starts. *)
Variables su backintime nice ionice : string.
Variable recursion_limit : nat.

Definition max_rules : nat := 100.
Definition max_users : nat := 20.
Definition max_cmd_len : nat := 120.

(** [r'^-n'] and [r'(^-c|^-n)'] under [re.match] *)
Definition nice_switches (part : string) : bool :=
  Py.startswith "-n" part.
Definition ionice_switches (part : string) : bool :=
  Py.startswith "-c" part || Py.startswith "-n" part.

Definition whitelist : list (string * (string -> bool)) :=
  [ (nice, nice_switches); (ionice, ionice_switches) ].

(** The [for] loop over the whitelist: the switches of the first entry
    whose command is [part]; [None] is the [else] branch of the loop. *)
Fixpoint whitelisted (wl : list (string * (string -> bool))) (part : string)
  : option (string -> bool) :=
  match wl with
  | [] => None
  | (c, switches) :: wl' =>
      if decide (part = c) then Some switches else whitelisted wl' part
  end.

(** [while parts and re.match(switches, parts[0]): parts.pop(0)] *)
Fixpoint pop_switches (switches : string -> bool) (parts : list string)
  : list string :=
  match parts with
  | [] => []
  | part :: parts' =>
      if switches part then pop_switches switches parts' else parts
  end.

(** The outer [while parts] loop of [_validateCmd]. *)
Equations? pop_whitelisted (parts : list string) : list string
  by wf (length parts) lt :=
pop_whitelisted [] := [];
pop_whitelisted (part :: parts') with whitelisted whitelist part := {
  | Some switches => pop_whitelisted (pop_switches switches parts')
  | None => part :: parts' }.
Proof.
  clear pop_whitelisted. simpl.
  induction parts' as [|p' parts' IH]; simpl; [lia|].
  destruct (switches p'); simpl; lia.
Qed.

Definition _validateCmd (cmd : string) : Result unit :=
  if decide (Py.find "&&" cmd ≠ -1) then
    Raise (InvalidCmd ContainsConcatenation)
  else if negb (Py.startswith "/" cmd) then
    Raise (InvalidCmd NotAbsolute)
  else
    match pop_whitelisted (Py.split cmd) with
    | [] => Raise (InvalidCmd NoBackintimeCommand)
    | part :: _ =>
        if decide (part ≠ backintime)
        then Raise (InvalidCmd (NotWhitelisted part))
        else Ok tt
    end.

Definition _checkLimits (owner cmd : string) : M unit :=
  w ← get;
  if (max_rules <=? length (default [] (tmpDict w !! owner)))%nat then
    raise (LimitExceeded MaxRules)
  else if (max_users <=? size (tmpDict w))%nat then
    raise (LimitExceeded MaxUsers)
  else if (max_cmd_len <? String.length cmd)%nat then
    raise (LimitExceeded MaxCmdLen)
  else mret tt.

(** The class [[a-zA-Z0-9-/\.>& ]]: after the range [0-9] the hyphen
    stands for itself. *)
Definition cmd_char (c : ascii) : bool :=
  Py.in_range 97 122 c || Py.in_range 65 90 c || Py.in_range 48 57 c
  || bool_decide (c ∈ list_ascii_of_string "-/.>& ").

(** The class [[a-zA-Z0-9-]] *)
Definition uuid_char (c : ascii) : bool :=
  Py.in_range 97 122 c || Py.in_range 65 90 c || Py.in_range 48 57 c
  || bool_decide (c ∈ list_ascii_of_string "-").

Definition sucmd (user cmd : string) : string :=
  su +:+ " - '" +:+ user +:+ "' -c '" +:+ cmd +:+ "'".

Definition udev_rule (uuid user cmd : string) : string :=
  "ACTION==" +:+ Py.str1 Py.DQUOTE +:+ "add|change" +:+ Py.str1 Py.DQUOTE
  +:+ ", ENV{ID_FS_UUID}==" +:+ Py.str1 Py.DQUOTE +:+ uuid
  +:+ Py.str1 Py.DQUOTE +:+ ", RUN+=" +:+ Py.str1 Py.DQUOTE
  +:+ sucmd user cmd +:+ Py.str1 Py.DQUOTE +:+ Py.str1 Py.LF.

(** The two character checks and [_validateCmd], which [addRule] runs
    before it looks at who is calling. *)
Definition validate (cmd uuid : string) : Result unit :=
  let chars := Py.findall (fun c => negb (cmd_char c)) cmd in
  if negb (bool_decide (chars = [])) then Raise (InvalidChar "cmd" chars)
  else
    let chars := Py.findall (fun c => negb (uuid_char c)) uuid in
    if negb (bool_decide (chars = [])) then Raise (InvalidChar "uuid" chars)
    else _validateCmd cmd.

Definition addRule (cmd uuid : string) (sender : string) (conn : Connection)
  : M unit :=
  match validate cmd uuid with
  | Raise e => raise e
  | Ok _ =>
      let info := mkSenderInfo sender conn in
      let user := connectionUnixUser info in
      let owner := nameOwner info in
      _checkLimits owner cmd;;
      let rule := udev_rule uuid user cmd in
      w ← get;
      (if bool_decide (owner ∉ dom (tmpDict w))
       then set_tmpDict (<[owner := []]> (tmpDict w))
       else mret tt);;
      w ← get;
      set_tmpDict
        (<[owner := (default [] (tmpDict w !! owner) ++ [rule])%list]>
           (tmpDict w))
  end.

(** [x is not None] *)
Definition is_Some_b {A} (x : option A) : bool :=
  match x with Some _ => true | None => false end.

Definition _clean (owner : string) : M unit :=
  w ← get;
  if bool_decide (owner ∈ dom (tmpDict w))
  then set_tmpDict (delete owner (tmpDict w))
  else mret tt.

(** [_checkPolkitPrivilege]: it returns when the caller holds the
    privilege and raises otherwise.  When polkit answers with the error
    [ServiceUnknown] the method calls itself again; [depth] is the number
    of nested calls the interpreter still allows, and [attempt] counts
    the calls of [CheckAuthorization] made so far.  The proxy [self.polkit],
    made anew before each retry, is no part of the world. *)
Fixpoint _checkPolkitPrivilege_from (depth attempt : nat) (polkit : Polkit)
  (sender : option string) (conn : option Connection) (privilege : string)
  : M unit :=
  match depth with
  | O => raise RecursionError
  | S depth' =>
      if negb (is_Some_b sender) && negb (is_Some_b conn)
      then mret tt (* called locally, not through D-Bus *)
      else
        w ← get;
        if negb (enforce_polkit w) then mret tt
        else
          match polkit sender privilege attempt with
          | Error name =>
              if decide (name = ServiceUnknown)
              then _checkPolkitPrivilege_from depth' (S attempt) polkit
                     sender conn privilege
              else raise (DBusException name)
          | Reply is_auth =>
              if negb is_auth
              then raise (PermissionDeniedByPolicy privilege)
              else mret tt
          end
  end.

Definition _checkPolkitPrivilege :=
  _checkPolkitPrivilege_from recursion_limit 0.

Definition delete_ (polkit : Polkit) (sender : string) (conn : Connection)
  : M unit :=
  let info := mkSenderInfo sender conn in
  let user := connectionUnixUser info in
  let owner := nameOwner info in
  _clean owner;;
  w ← get;
  if bool_decide (UDEV_RULES_PATH user ∈ dom (fs w)) then
    _checkPolkitPrivilege polkit (Some sender) (Some conn)
      "net.launchpad.backintime.UdevRuleDelete";;
    remove (UDEV_RULES_PATH user)
  else mret tt.

Definition save (polkit : Polkit) (sender : string) (conn : Connection)
  : M bool :=
  let info := mkSenderInfo sender conn in
  let user := connectionUnixUser info in
  let owner := nameOwner info in
  w ← get;
  match tmpDict w !! owner with
  | None | Some [] =>
      delete_ polkit sender conn;;
      mret false
  | Some rules =>
      let identical :=
        match fs w !! UDEV_RULES_PATH user with
        | Some content => bool_decide (rules = readlines content)
        | None => false
        end in
      if identical then
        _clean owner;;
        mret false
      else
        _checkPolkitPrivilege polkit (Some sender) (Some conn)
          "net.launchpad.backintime.UdevRuleSave";;
        write_file (UDEV_RULES_PATH user) rules;;
        _clean owner;;
        mret true
  end.

Definition clean (sender : string) (conn : Connection) : M unit :=
  let info := mkSenderInfo sender conn in
  _clean (nameOwner info).

(** Successive calls of [addRule] on one connection, one per pair of a
    command and a uuid; the first failure ends them. *)
Fixpoint addRules (requests : list (string * string)) (sender : string)
  (conn : Connection) : M unit :=
  match requests with
  | [] => mret tt
  | (cmd, uuid) :: requests' =>
      addRule cmd uuid sender conn;;
      addRules requests' sender conn
  end.

(** What an owner has staged. *)
Definition staged_by (w : World) (owner : string) : list string :=
  default [] (tmpDict w !! owner).

(** A request, a command with a uuid, that passes the validation and
    the limit on the length of the command. *)
Definition acceptable (request : string * string) : Prop :=
  validate request.1 request.2 = Ok tt
  /\ (String.length request.1 <= max_cmd_len)%nat.

(** The rule [addRule] builds for a request of a connection. *)
Definition rule_of (sender : string) (conn : Connection)
  (request : string * string) : string :=
  udev_rule request.2 (GetConnectionUnixUser conn sender) request.1.

(** A text that holds no line end. *)
Definition no_line_end (s : string) : bool :=
  forallb (fun c => negb (bool_decide (c = Py.LF))
                    && negb (bool_decide (c = Py.CR)))
          (list_ascii_of_string s).

(** A text with no carriage return. *)
Definition no_CR (s : string) : bool :=
  forallb (fun c => negb (bool_decide (c = Py.CR))) (list_ascii_of_string s).

(** One whole line: a text with no line end in it, and a line feed. *)
Definition is_line (r : string) : Prop :=
  exists body, r = body +:+ Py.str1 Py.LF /\ no_line_end body = true.

(** Every staged rule is one whole line. *)
Definition staged_lines (w : World) : Prop :=
  forall owner rules, tmpDict w !! owner = Some rules -> Forall is_line rules.

(** The world once an owner's staged rules are dropped, and once the files
    have changed to [f]. *)
Definition cleaned (owner : string) (w : World) : World :=
  mkWorld (enforce_polkit w) (delete owner (tmpDict w)) (fs w) (fs_log w).

Definition with_fs (f : FS) (w : World) : World :=
  mkWorld (enforce_polkit w) (tmpDict w) f (fs_log w ++ [f]).

(** The worlds the service can be in: it starts with polkit enforced
    and nothing staged, whatever the files are, and then answers calls.
    The user names the bus resolves hold no line end. *)
Inductive reachable : World -> Prop :=
| reachable_init files :
    reachable (mkWorld true ∅ files [])
| reachable_addRule w cmd uuid sender conn :
    reachable w ->
    no_line_end (GetConnectionUnixUser conn sender) = true ->
    reachable (snd (addRule cmd uuid sender conn w))
| reachable_save w polkit sender conn :
    reachable w -> reachable (snd (save polkit sender conn w))
| reachable_delete w polkit sender conn :
    reachable w -> reachable (snd (delete_ polkit sender conn w))
| reachable_clean w sender conn :
    reachable w -> reachable (snd (clean sender conn w)).

(** A reader of [path] finds, in every state of [log], the file as it is
    in [before] or as it is in [after]. *)
Definition atomic_write (path : string) (before after : FS)
  (log : list FS) : Prop :=
  Forall (fun s => s !! path = before !! path \/ s !! path = after !! path)
         log.

End UdevRules.

(** *** A small installation, for the examples *)

Module Example.

(** The fallback paths of [__init__]. *)
Definition su : string := "/bin/su".
Definition backintime : string := "/usr/bin/backintime".
Definition nice : string := "/usr/bin/nice".
Definition ionice : string := "/usr/bin/ionice".

(** A bus with the one user alice; the unique name of a connection is
    its own owner. *)
Definition bus : Connection :=
  {| GetConnectionUnixUser := fun _ => "alice";
     GetNameOwner := fun sender => sender |}.

Definition caller : string := ":1.42".

Definition rules_file : string := UDEV_RULES_PATH "alice".

Definition start : World := mkWorld true ∅ ∅ [].

Definition granting : Polkit := fun _ _ _ => Reply true.
Definition denying : Polkit := fun _ _ _ => Reply false.
Definition unreachable : Polkit := fun _ _ _ => Error ServiceUnknown.

Definition backup_cmd : string := "/usr/bin/backintime --backup".
Definition chained_cmd : string :=
  "/usr/bin/backintime --backup && rm -rf /".
Definition redirecting_cmd : string :=
  "/usr/bin/backintime --backup >/tmp/x".
Definition background_cmd : string := "/usr/bin/backintime --backup &".

Definition add (cmd uuid : string) : M unit :=
  addRule su backintime nice ionice cmd uuid caller bus.

(** The service once the caller has staged one rule, and that rule. *)
Definition staged : World := snd (add backup_cmd "1234-uuid" start).
Definition rule : string := udev_rule su "1234-uuid" "alice" backup_cmd.

End Example.

End ServiceHelper.

(** ** [common/tools.py] *)

Module Tools.

(** *** The capability probe [rsyncCaps] *)

(** [\s*]: it is greedy, and each time it is followed by a character that
    is no space, so it takes every space there is. *)
Definition skip_spaces (s : string) : string := Py.lstrip Py.isspace s.

(** [re.match(r'rsync\s*version\s*(\d\.\d)', data)]: the group, if the
    pattern matches at the start of [data]. *)
Definition match_version (data : string) : option string :=
  s ← Py.after "rsync" data;
  s ← Py.after "version" (skip_spaces s);
  match skip_spaces s with
  | String a (String b (String c _)) =>
      if Py.isdigit a && bool_decide (b = "."%char) && Py.isdigit c
      then Some (string_of_list_ascii [a; b; c])
      else None
  | _ => None
  end.

(** [re.match(r'rsync\s*version\s*v(\d\.\d.\d)', data)]: the second dot of
    the group is not escaped and stands for any character but a line
    feed. *)
Definition match_version_v (data : string) : option string :=
  s ← Py.after "rsync" data;
  s ← Py.after "version" (skip_spaces s);
  s ← Py.after "v" (skip_spaces s);
  match s with
  | String a (String b (String c (String d (String e _)))) =>
      if Py.isdigit a && bool_decide (b = "."%char) && Py.isdigit c
         && negb (bool_decide (d = Py.LF)) && Py.isdigit e
      then Some (string_of_list_ascii [a; b; c; d; e])
      else None
  | _ => None
  end.

Definition matchers : list (string -> option string) :=
  [ match_version; match_version_v ].

(** [(.+)\n\n.*] on [s]: the group is greedy, it is the longest prefix of
    [s], one character at least, that two line feeds follow. *)
Fixpoint capabilities_group (s : string) : option string :=
  match s with
  | EmptyString => None
  | String c s' =>
      match capabilities_group s' with
      | Some g => Some (String c g)
      | None =>
          if Py.startswith (String Py.LF (String Py.LF EmptyString)) s'
          then Some (Py.str1 c)
          else None
      end
  end.

(** [re.match(r'.*Capabilities:(.+)\n\n.*', data, re.DOTALL)]: the first
    [.*] is greedy, the marker is taken at the last place from which the
    rest of the pattern matches. *)
Fixpoint match_capabilities (data : string) : option string :=
  match data with
  | EmptyString => None
  | String _ data' =>
      match match_capabilities data' with
      | Some g => Some g
      | None => Py.after "Capabilities:" data ≫= capabilities_group
      end
  end.

(** [i.strip(' \n')] *)
Definition strip_token (i : string) : string :=
  Py.strip (fun c => bool_decide (c = " "%char) || bool_decide (c = Py.LF)) i.

(** The [for line in m.group(1).split('\n')] loop: the tokens between the
    commas of each line, stripped, the empty ones left out. *)
Definition capabilities (group : string) : list string :=
  concat
    (map (fun line =>
            map strip_token
              (filter (fun i => Py.is_empty (strip_token i) = false)
                      (Py.split_on ","%char line)))
         (Py.split_on Py.LF group)).

Section RsyncCaps.

(** [packaging.version.Version]: the constructor, which raises
    [InvalidVersion] on a text that is no version, and the order [>=]. *)
Variable V : Type.
Variable Version : string -> Result V.
Variable ge : V -> V -> bool.

(** What [rsync --version] prints, or the exception of starting it. *)
Variable rsync_version : Result string.

(** The [for matcher in matchers] loop: whether [progress2] is added. *)
Fixpoint progress2 (ms : list (string -> option string)) (data : string)
  : Result bool :=
  match ms with
  | [] => Ok false
  | matcher :: ms' =>
      match matcher data with
      | Some group =>
          match Version group with
          | Raise e => Raise e
          | Ok v =>
              match Version "3.1" with
              | Raise e => Raise e
              | Ok v31 => if ge v v31 then Ok true else progress2 ms' data
              end
          end
      | None => progress2 ms' data
      end
  end.

Definition rsyncCaps (data : option string) : Result (list string) :=
  let probed :=
    match data with
    | Some d => if Py.is_empty d then rsync_version else Ok d
    | None => rsync_version
    end in
  match probed with
  | Raise e => Raise e
  | Ok data =>
      match progress2 matchers data with
      | Raise e => Raise e
      | Ok p =>
          let caps := if p then ["progress2"] else [] in
          match match_capabilities data with
          | None => Ok caps
          | Some group => Ok (caps ++ capabilities group)%list
          end
      end
  end.

End RsyncCaps.

(** A stand-in for [Version] on the versions that are a plain release:
    decimal numbers separated by dots, compared as tuples once trailing
    zeros are dropped.  The other forms of a version (pre, post, dev and
    local parts) are outside it. *)
Fixpoint release_from (n : option nat) (s : string) : option (list nat) :=
  match s with
  | EmptyString => x ← n; Some [x]
  | String c s' =>
      if Py.isdigit c then
        release_from (Some (10 * default 0%nat n + (Py.ord c - 48))%nat) s'
      else if bool_decide (c = "."%char) then
        x ← n; r ← release_from None s'; Some (x :: r)
      else None
  end.

Definition ReleaseVersion (s : string) : Result (list nat) :=
  match release_from None s with
  | Some r => Ok r
  | None => Raise (InvalidVersion s)
  end.

Fixpoint release_ge (a b : list nat) : bool :=
  match a, b with
  | _, [] => true
  | [], y :: b' => (y =? 0)%nat && release_ge [] b'
  | x :: a', y :: b' =>
      if (y <? x)%nat then true
      else if (x <? y)%nat then false
      else release_ge a' b'
  end.

(** *** The class [Execute] *)

Inductive Signum := SIGTSTP | SIGCONT | SIGHUP.

(** What a signal of the interpreter is bound to: the default action, or
    one of the three slots of the [Execute] object. *)
Inductive Handler := SIG_DFL | slot_pause | slot_resume | slot_kill.

#[export] Instance Signum_eq_dec : EqDecision Signum.
Proof. solve_decision. Defined.

(** The child process: the lines it writes to its standard output, the
    code it exits with when left alone, and whether it is alive and
    whether it is stopped. *)
Record Popen := mkPopen {
  stdout : list string;
  exit_code : Z;
  alive : bool;
  stopped : bool
}.

Section Execute.

(** The type of [user_data]. *)
Variable U : Type.

(** The process-wide signal handlers and the attributes of the
    [Execute] object that [run] and its slots read or change. *)
Record State := mkState {
  handlers : Signum -> Handler;
  currentProc : option Popen;
  pausable : bool;
  user_data : U
}.

Definition M (A : Type) : Type := State -> Result A * State.

#[export] Instance M_ret : MRet M := fun A a st => (Ok a, st).
#[export] Instance M_bind : MBind M := fun A B k m st =>
  match m st with
  | (Ok a, st') => k a st'
  | (Raise e, st') => (Raise e, st')
  end.

Definition get : M State := fun st => (Ok st, st).
Definition raise {A} (e : Exception) : M A := fun st => (Raise e, st).

(** [try: body except ValueError: pass] *)
Definition except_ValueError_pass (body : M unit) : M unit := fun st =>
  match body st with
  | (Raise ValueError, st') => (Ok tt, st')
  | r => r
  end.

(** The attributes set by [__init__] and the surroundings of a run:
    [signal.signal] raises [ValueError] outside the main thread, and
    [subprocess.Popen] gives the child or raises. *)
Variable callback : option (string -> U -> Result U).
Variable filters : list (string -> string).
Variable main_thread : bool.
Variable spawn : Result Popen.

Definition signal (signum : Signum) (handler : Handler) : M unit :=
  fun st =>
    if main_thread then
      (Ok tt, mkState (fun s => if decide (s = signum) then handler
                                else handlers st s)
                      (currentProc st) (pausable st) (user_data st))
    else (Raise ValueError, st).

Definition set_currentProc (proc : option Popen) : M unit := fun st =>
  (Ok tt, mkState (handlers st) proc (pausable st) (user_data st)).

Definition set_user_data (u : U) : M unit := fun st =>
  (Ok tt, mkState (handlers st) (currentProc st) (pausable st) u).

(** [Popen.send_signal(SIGSTOP)], [Popen.send_signal(SIGCONT)] and
    [Popen.kill()]: nothing is sent to a child that has ended. *)
Definition send_SIGSTOP (p : Popen) : Popen :=
  if alive p then mkPopen (stdout p) (exit_code p) true true else p.
Definition send_SIGCONT (p : Popen) : Popen :=
  if alive p then mkPopen (stdout p) (exit_code p) true false else p.
Definition killed (p : Popen) : Popen :=
  mkPopen (stdout p) (-9) false (stopped p).
Definition Popen_kill (p : Popen) : Popen :=
  if alive p then killed p else p.

(** The three slots, each under [if self.pausable and self.currentProc].
    A [Popen] object is truthy, so [self.currentProc] is false only when it
    is [None]. *)
Definition pause : M unit :=
  st ← get;
  match pausable st, currentProc st with
  | true, Some proc => set_currentProc (Some (send_SIGSTOP proc))
  | _, _ => mret tt
  end.

Definition resume : M unit :=
  st ← get;
  match pausable st, currentProc st with
  | true, Some proc => set_currentProc (Some (send_SIGCONT proc))
  | _, _ => mret tt
  end.

Definition kill : M unit :=
  st ← get;
  match pausable st, currentProc st with
  | true, Some proc => set_currentProc (Some (Popen_kill proc))
  | _, _ => mret tt
  end.

(** The interpreter receives a signal: the handler it is bound to runs.
    The default action is the one of the operating system and lies
    outside the object. *)
Definition deliver (signum : Signum) : M unit :=
  st ← get;
  match handlers st signum with
  | slot_pause => pause
  | slot_resume => resume
  | slot_kill => kill
  | SIG_DFL => mret tt
  end.

(** The body of [for line in self.currentProc.stdout] *)
Definition on_line (cb : string -> U -> Result U) (line : string) : M unit :=
  let line := Py.rstrip (fun c => bool_decide (c = Py.LF)) line in
  let line := foldl (fun l f => f l) line filters in
  if Py.is_empty line then mret tt
  else
    st ← get;
    match cb line (user_data st) with
    | Ok u => set_user_data u
    | Raise e => raise e
    end.

Fixpoint for_lines (cb : string -> U -> Result U) (lines : list string)
  : M unit :=
  match lines with
  | [] => mret tt
  | line :: lines' => on_line cb line;; for_lines cb lines'
  end.

(** [Popen.communicate()]: the child has ended when it returns. *)
Definition communicate : M Z :=
  st ← get;
  match currentProc st with
  | Some proc =>
      set_currentProc
        (Some (mkPopen (stdout proc) (exit_code proc) false (stopped proc)));;
      mret (exit_code proc)
  | None => raise (OtherException "AttributeError")
  end.

Definition run : M Z :=
  except_ValueError_pass
    (signal SIGTSTP slot_pause;;
     signal SIGCONT slot_resume;;
     signal SIGHUP slot_kill);;
  match spawn with
  | Raise e => raise e
  | Ok proc =>
      set_currentProc (Some proc);;
      match callback with
      | Some cb => for_lines cb (stdout proc)
      | None => mret tt
      end;;
      ret_val ← communicate;
      except_ValueError_pass
        (signal SIGTSTP SIG_DFL;;
         signal SIGCONT SIG_DFL;;
         signal SIGHUP SIG_DFL);;
      mret ret_val
  end.

End Execute.

(** The handlers [run] installs before it starts the child. *)
Definition installed : Signum -> Handler := fun signum =>
  match signum with
  | SIGTSTP => slot_pause
  | SIGCONT => slot_resume
  | SIGHUP => slot_kill
  end.

(** *** Sample texts and a sample child, for the examples *)

Module Example.

Definition NL : string := Py.str1 Py.LF.

Definition rsync_3_1_0 : string :=
  "rsync  version 3.1.0  protocol version 31" +:+ NL
  +:+ "Capabilities:" +:+ NL
  +:+ "    64-bit files, ACLs, xattrs" +:+ NL
  +:+ NL
  +:+ "rsync comes with ABSOLUTELY NO WARRANTY.".

Definition listed_progress2 : string :=
  "Capabilities:progress2" +:+ NL +:+ NL.

Definition a_child : Popen := mkPopen ["sent 42 bytes"] 0 true false.

End Example.

End Tools.

(** ** The calls of the service, one after the other *)

Module ServiceCalls.
Import ServiceHelper.

Section Calls.
Variables su backintime nice ionice : string.
Variable recursion_limit : nat.

(** A call of one of the four methods the service exports, with the answers
    polkit gives while it runs. *)
Inductive Call :=
| CallAddRule (cmd uuid : string)
| CallSave (polkit : Polkit)
| CallDelete (polkit : Polkit)
| CallClean.

(** The world a call leaves, whether it returns or raises. *)
Definition after (call : Call) (sender : string) (conn : Connection)
  (w : World) : World :=
  match call with
  | CallAddRule cmd uuid =>
      snd (addRule su backintime nice ionice cmd uuid sender conn w)
  | CallSave polkit => snd (save recursion_limit polkit sender conn w)
  | CallDelete polkit => snd (delete_ recursion_limit polkit sender conn w)
  | CallClean => snd (clean sender conn w)
  end.

(** Polkit grants [privilege] to [sender] at some attempt of the call. *)
Definition granted (call : Call) (sender privilege : string) : Prop :=
  match call with
  | CallSave polkit | CallDelete polkit =>
      exists n, polkit (Some sender) privilege n = Reply true
  | _ => False
  end.

(** A rule as [addRule] builds it, from strings that pass the validation
    and the limit on the length of the command. *)
Definition validated_rule (rule : string) : Prop :=
  exists cmd uuid user,
    rule = udev_rule su uuid user cmd
    /\ validate backintime nice ionice cmd uuid = Ok tt
    /\ (String.length cmd <= max_cmd_len)%nat.

(** The limits on what is staged: on the owners, and for each owner on the
    rules, none of which got there without passing the validation. *)
Definition within_limits (w : World) : Prop :=
  (size (tmpDict w) <= max_users)%nat
  /\ forall owner rules,
       tmpDict w !! owner = Some rules ->
       rules <> [] /\ (length rules <= max_rules)%nat
       /\ Forall validated_rule rules.

(** Calls made one after the other, each by a sender on a connection. *)
Definition after_all (calls : list (Call * string * Connection)) (w : World)
  : World :=
  foldl (fun w '(call, sender, conn) => after call sender conn w) w calls.

(** The service as [__init__] leaves it, over the files there are. *)
Definition started (files : FS) : World := mkWorld true ∅ files [].

(** What [_validateCmd] lets stand before the entry point: the two tools
    and the switches their patterns match. *)
Definition prefix_token (part : string) : Prop :=
  part = nice \/ part = ionice
  \/ nice_switches part = true \/ ionice_switches part = true.

End Calls.
End ServiceCalls.

(** ** The lines a run hands to its callback *)

Module Stream.
Import Tools.

(** One line of the child as the callback gets it: the line feeds at its end
    dropped, then the filters applied in their order. *)
Definition filtered (filters : list (string -> string)) (line : string)
  : string :=
  foldl (fun l f => f l) (Py.rstrip (fun c => bool_decide (c = Py.LF)) line)
        filters.

(** The lines that reach the callback: those that are not empty once
    filtered. *)
Definition delivered (filters : list (string -> string)) (lines : list string)
  : list string :=
  filter (fun line => Py.is_empty line = false) (map (filtered filters) lines).

(** A callback that raises on the lines [fails] names, whatever it has
    gathered, and gathers with [gather] otherwise. *)
Definition callback_of {U} (fails : string -> option Exception)
  (gather : string -> U -> U) : string -> U -> Result U :=
  fun line u =>
    match fails line with
    | Some e => Raise e
    | None => Ok (gather line u)
    end.

(** The child once it has ended, as [communicate] leaves it. *)
Definition ended (proc : Popen) : Popen :=
  mkPopen (stdout proc) (exit_code proc) false (stopped proc).

End Stream.

(** ** Texts without characters to strip *)

Module Tokens.

(** A text that neither starts nor ends with a character of [chars]. *)
Definition trimmed (chars : ascii -> bool) (s : string) : Prop :=
  Py.lstrip chars s = s /\ Py.rstrip chars s = s.

(** The characters [i.strip(' \n')] strips. *)
Definition blank (c : ascii) : bool :=
  bool_decide (c = " "%char) || bool_decide (c = Py.LF).

End Tokens.

(** ** [tools.py]: the rsync command line *)

Module RsyncCommand.
Import Tools.

(** [sep.join(parts)] *)
Fixpoint join_with (sep : string) (parts : list string) : string :=
  match parts with
  | [] => EmptyString
  | [part] => part
  | part :: parts' => part +:+ sep +:+ join_with sep parts'
  end.

(** What the functions ask of the profile in [config]: the value each
    method returns, and the attribute [forceUseChecksum].  [sshCommand] is
    the list [config.sshCommand(user_host=False, ionice=False, nice=False)]
    returns. *)
Record Config := mkConfig {
  nocacheOnLocal : bool;
  useChecksum : bool;
  forceUseChecksum : bool;
  copyUnsafeLinks : bool;
  copyLinks : bool;
  oneFileSystem : bool;
  preserveAcl : bool;
  preserveXattr : bool;
  bwlimitEnabled : bool;
  bwlimit : Z;
  rsyncOptionsEnabled : bool;
  rsyncOptions : string;
  snapshotsMode : string;
  sshCommand : list string;
  niceOnRemote : bool;
  ioniceOnRemote : bool;
  nocacheOnRemote : bool
}.

(** [args] when [b] holds, nothing otherwise. *)
Definition when (b : bool) (args : list string) : list string :=
  if b then args else [].

(** [flag in args] *)
Fixpoint listed (flag : string) (args : list string) : bool :=
  match args with
  | [] => false
  | arg :: args' => String.eqb flag arg || listed flag args'
  end.

Definition ssh_modes : list string := ["ssh"; "ssh_encfs"].

Definition rsyncSshArgs (config : Config) (use_mode : list string)
  : list string :=
  let cmd := [] in
  let mode := snapshotsMode config in
  if bool_decide (mode ∈ ssh_modes) && bool_decide (mode ∈ use_mode) then
    let ssh := sshCommand config in
    let cmd := (cmd ++ ["--rsh=" +:+ join_with " " ssh])%list in
    if niceOnRemote config || ioniceOnRemote config || nocacheOnRemote config
    then
      let rsync_path := "--rsync-path=" in
      let rsync_path :=
        if niceOnRemote config then rsync_path +:+ "nice -n 19 "
        else rsync_path in
      let rsync_path :=
        if ioniceOnRemote config then rsync_path +:+ "ionice -c2 -n7 "
        else rsync_path in
      let rsync_path :=
        if nocacheOnRemote config then rsync_path +:+ "nocache "
        else rsync_path in
      let rsync_path := rsync_path +:+ "rsync" in
      (cmd ++ [rsync_path])%list
    else cmd
  else cmd.

Definition rsyncRemove (config : Config) (run_local : bool) : list string :=
  let cmd := ["rsync"; "-a"; "--delete"; "-s"] in
  if run_local then (cmd ++ rsyncSshArgs config ssh_modes)%list else cmd.

Section RsyncPrefix.

(** [rsyncCaps()], and [shlex.split], which raises [ValueError] on a text
    whose quotes do not close. *)
Variable V : Type.
Variable Version : string -> Result V.
Variable ge : V -> V -> bool.
Variable rsync_version : Result string.
Variable shlex_split : string -> Result (list string).

Definition rsyncPrefix (config : Config) (no_perms : bool)
  (use_mode : list string) (progress : bool) : Result (list string) :=
  match rsyncCaps V Version ge rsync_version None with
  | Raise e => Raise e
  | Ok caps =>
      let cmd := [] in
      let cmd := if nocacheOnLocal config then (cmd ++ ["nocache"])%list
                 else cmd in
      let cmd := (cmd ++ ["rsync"])%list in
      let cmd := (cmd ++ ["--recursive"; "--times"; "--devices"; "--specials";
                          "--hard-links"; "--human-readable"; "-s"])%list in
      let cmd := if useChecksum config || forceUseChecksum config
                 then (cmd ++ ["--checksum"])%list else cmd in
      let cmd := if copyUnsafeLinks config
                 then (cmd ++ ["--copy-unsafe-links"])%list else cmd in
      let cmd := if copyLinks config then (cmd ++ ["--copy-links"])%list
                 else (cmd ++ ["--links"])%list in
      let cmd := if oneFileSystem config
                 then (cmd ++ ["--one-file-system"])%list else cmd in
      let '(cmd, no_perms) :=
        if preserveAcl config && bool_decide ("ACLs" ∈ caps)
        then ((cmd ++ ["--acls"])%list, false) else (cmd, no_perms) in
      let '(cmd, no_perms) :=
        if preserveXattr config && bool_decide ("xattrs" ∈ caps)
        then ((cmd ++ ["--xattrs"])%list, false) else (cmd, no_perms) in
      let cmd := if no_perms
                 then (cmd ++ ["--no-perms"; "--no-group"; "--no-owner"])%list
                 else (cmd ++ ["--perms"; "--executability"; "--group";
                               "--owner"])%list in
      let cmd := if progress && bool_decide ("progress2" ∈ caps)
                 then (cmd ++ ["--info=progress2"; "--no-inc-recursive"])%list
                 else cmd in
      let cmd := if bwlimitEnabled config
                 then (cmd ++ ["--bwlimit=" +:+ pretty (bwlimit config)])%list
                 else cmd in
      if rsyncOptionsEnabled config then
        match shlex_split (rsyncOptions config) with
        | Raise e => Raise e
        | Ok options =>
            Ok (cmd ++ options ++ rsyncSshArgs config use_mode)%list
        end
      else Ok (cmd ++ rsyncSshArgs config use_mode)%list
  end.

End RsyncPrefix.

Module Example.

(** A profile that backs up over ssh and asks for ACLs and extended
    attributes, with nothing else switched on. *)
Definition profile : Config :=
  {| nocacheOnLocal := false;
     useChecksum := false;
     forceUseChecksum := false;
     copyUnsafeLinks := false;
     copyLinks := false;
     oneFileSystem := false;
     preserveAcl := true;
     preserveXattr := true;
     bwlimitEnabled := true;
     bwlimit := 300;
     rsyncOptionsEnabled := false;
     rsyncOptions := EmptyString;
     snapshotsMode := "ssh";
     sshCommand := ["ssh"; "-p"; "22"];
     niceOnRemote := true;
     ioniceOnRemote := false;
     nocacheOnRemote := false |}.

End Example.
End RsyncCommand.

(** ** [tools.py]: paths, command lists and the path history *)

Module Paths.

(** [os.sep] of the systems the program runs on. *)
Definition sep : string := "/".



(** [len(s)] *)
Definition len (s : string) : Z := Z.of_nat (String.length s).

Section SplitCommands.
Variables head tail : string.
Variable maxLength : Z.

(** The inner [while] of [splitCommands]: the commands popped off the front
    of [cmds] and added to [s], and the list that is left. *)
Fixpoint fill (s : string) (cmds : list string) : string * list string :=
  match cmds with
  | [] => (s, [])
  | cmd :: cmds' =>
      if (len ((s +:+ cmd) +:+ tail) <=? maxLength) || (maxLength <=? 0)
      then fill (s +:+ cmd) cmds'
      else (s, cmds)
  end.

(** A command that fits between [head] and [tail] on its own. *)
Definition fits (cmd : string) : Prop :=
  len ((head +:+ cmd) +:+ tail) <= maxLength.

(** One resumption of the generator: [None] when it is exhausted, else the
    command it yields and the list [cmds] as the pops left it. *)
Definition next_command (cmds : list string)
  : option (string * list string) :=
  match cmds with
  | [] => None
  | _ :: _ =>
      let s := head in
      let '(s, cmds) := fill s cmds in
      let s := s +:+ tail in
      Some (s, cmds)
  end.

(** The commands of the first [n] resumptions, and the list left. *)
Fixpoint splitCommands (n : nat) (cmds : list string)
  : list string * list string :=
  match n with
  | O => ([], cmds)
  | S n' =>
      match next_command cmds with
      | None => ([], cmds)
      | Some (s, cmds') =>
          let '(yielded, rest) := splitCommands n' cmds' in
          (s :: yielded, rest)
      end
  end.

End SplitCommands.

(** [history[i]] of Python: an index below zero counts from the end. *)
Definition item (l : list string) (i : Z) : Result string :=
  let n := Z.of_nat (length l) in
  let i' := if i <? 0 then i + n else i in
  if (0 <=? i') && (i' <? n)
  then match l !! Z.to_nat i' with
       | Some x => Ok x
       | None => Raise (OtherException "IndexError")
       end
  else Raise (OtherException "IndexError").

(** [history[:k]] *)
Definition slice_to (l : list string) (k : Z) : list string :=
  let n := Z.of_nat (length l) in
  let k' := if k <? 0 then Z.max 0 (k + n) else k in
  take (Z.to_nat k') l.

Record PathHistory := mkPathHistory {
  history : list string;
  index : Z
}.

Definition init (path : string) : PathHistory := mkPathHistory [path] 0.

Definition append (path : string) (self : PathHistory) : PathHistory :=
  let history := (slice_to (history self) (index self + 1) ++ [path])%list in
  mkPathHistory history (Z.of_nat (length history) - 1).

Definition previous (self : PathHistory) : Result string * PathHistory :=
  if index self =? 0 then (item (history self) 0, self)
  else
    match item (history self) (index self - 1) with
    | Raise _ => (item (history self) (index self), self)
    | Ok path => (Ok path, mkPathHistory (history self) (index self - 1))
    end.

Definition next (self : PathHistory) : Result string * PathHistory :=
  if index self =? Z.of_nat (length (history self)) - 1
  then (item (history self) (-1), self)
  else
    match item (history self) (index self + 1) with
    | Raise _ => (item (history self) (index self), self)
    | Ok path => (Ok path, mkPathHistory (history self) (index self + 1))
    end.

Definition reset (path : string) (self : PathHistory) : PathHistory :=
  mkPathHistory [path] 0.

(** The calls on a [PathHistory] object. *)
Inductive HistoryCall :=
| Append (path : string)
| Previous
| Next
| Reset (path : string).

(** What a call returns ([None] for the two that return nothing), and the
    object after it. *)
Definition call (c : HistoryCall) (self : PathHistory)
  : option (Result string) * PathHistory :=
  match c with
  | Append path => (None, append path self)
  | Previous => let '(r, self') := previous self in (Some r, self')
  | Next => let '(r, self') := next self in (Some r, self')
  | Reset path => (None, reset path self)
  end.

Definition calls (cs : list HistoryCall) (self : PathHistory) : PathHistory :=
  foldl (fun self c => snd (call c self)) self cs.

(** The object points at one of its entries. *)
Definition well_formed (self : PathHistory) : Prop :=
  0 <= index self < Z.of_nat (length (history self)).

(** The commands of [group] between [head] and [tail]. *)
Definition command (head tail : string) (group : list string) : string :=
  (head +:+ Py.join group) +:+ tail.

(** The entry the object points at. *)
Definition current (self : PathHistory) : Result string :=
  item (history self) (index self).

End Paths.

(** ** [tools.py]: the age of a time stamp *)

Module Age.

(** [bitbase.TimeUnit]: the four units [older_than] knows, and any other
    member. *)
Inductive TimeUnit :=
| HOUR
| DAY
| WEEK
| MONTH
| OtherUnit.

(** A naive [datetime.datetime] by its fields. *)
Record datetime := mkDatetime {
  year : Z;
  month : Z;
  day : Z;
  hour : Z;
  minute : Z;
  second : Z;
  microsecond : Z
}.

Definition is_leap (y : Z) : bool :=
  (y mod 4 =? 0) && (negb (y mod 100 =? 0) || (y mod 400 =? 0)).

Definition days_in_month (y m : Z) : Z :=
  if m =? 2 then if is_leap y then 29 else 28
  else if (m =? 4) || (m =? 6) || (m =? 9) || (m =? 11) then 30
  else 31.

(** [datetime(year, month, day, hour, minute, second)]: [ValueError] when a
    field is outside its range, the microseconds zero otherwise. *)
Definition datetime_new (y m d H M S : Z) : Result datetime :=
  if (1 <=? y) && (y <=? 9999) && (1 <=? m) && (m <=? 12)
     && (1 <=? d) && (d <=? days_in_month y m)
     && (0 <=? H) && (H <=? 23) && (0 <=? M) && (M <=? 59)
     && (0 <=? S) && (S <=? 59)
  then Ok (mkDatetime y m d H M S 0)
  else Raise ValueError.

(** The fields in the order they are compared. *)
Definition fields (t : datetime) : list Z :=
  [year t; month t; day t; hour t; minute t; second t; microsecond t].

Fixpoint lt_fields (a b : list Z) : bool :=
  match a, b with
  | x :: a', y :: b' => (x <? y) || ((x =? y) && lt_fields a' b')
  | _, _ => false
  end.

(** [a < b] *)
Definition lt (a b : datetime) : bool := lt_fields (fields a) (fields b).

#[export] Instance Result_ret : MRet Result := fun A a => Ok a.
#[export] Instance Result_bind : MBind Result := fun A B k r =>
  match r with
  | Ok a => k a
  | Raise e => Raise e
  end.

Section OlderThan.

(** [datetime.timedelta]: the constructor, by weeks, days and hours, and the
    difference [t - delta], each with the exception it may raise. *)
Variable timedelta : Type.
Variable timedelta_new : Z -> Z -> Z -> Result timedelta.
Variable sub : datetime -> timedelta -> Result datetime.

(** [TimeUnit(unit)] on what is not yet a member. *)
Variable TimeUnit_of : Z -> Result TimeUnit.

(** [older_than(dt, value, unit)] at the time [now]. *)
Definition older_than (dt : datetime) (value : Z) (unit : TimeUnit + Z)
  (now : datetime) : Result bool :=
  unit ← match unit with
         | inl unit => Ok unit
         | inr unit => TimeUnit_of unit
         end;
  match unit with
  | HOUR =>
      delta ← timedelta_new 0 0 value;
      t ← sub now delta;
      Ok (lt dt t)
  | DAY =>
      delta ← timedelta_new 0 value 0;
      t ← sub now delta;
      Ok (lt dt t)
  | WEEK =>
      delta ← timedelta_new value 0 0;
      t ← sub now delta;
      Ok (lt dt t)
  | MONTH =>
      let compare_month := (month dt + value - 1) mod 12 + 1 in
      let compare_year := year dt + (month dt + value - 1) / 12 in
      first ← datetime_new compare_year (compare_month + 1) 1 0 0 0;
      delta ← timedelta_new 0 1 0;
      last_day_dt ← sub first delta;
      let compare_day := Z.min (day dt) (day last_day_dt) in
      compare_dt ← datetime_new compare_year compare_month compare_day
                      (hour now) (minute now) (microsecond now);
      Ok (lt now compare_dt)
  | OtherUnit => Raise (OtherException "RuntimeError")
  end.

End OlderThan.

End Age.

(** ** The service: validation, quotas and staging *)

Module ServiceHelperFacts.
Import ServiceHelper.

Section Validation.
Variables su backintime nice ionice : string.

Lemma _validateCmd_raises cmd e :
  _validateCmd backintime nice ionice cmd = Raise e ->
  is_validation_error e = true.
Proof.
  unfold _validateCmd. intros H.
  repeat (case_match; try discriminate); by inversion H.
Qed.

Lemma validate_raises cmd uuid e :
  validate backintime nice ionice cmd uuid = Raise e ->
  is_validation_error e = true.
Proof.
  unfold validate. intros H.
  repeat (case_match; try discriminate); try (by inversion H).
  eauto using _validateCmd_raises.
Qed.

(** [addRule] in one step: the validation, the three limits, and the
    rule appended to what the owner has staged. *)
Lemma addRule_unfold cmd uuid sender conn w :
  let owner := GetNameOwner conn sender in
  let user := GetConnectionUnixUser conn sender in
  let staged := default [] (tmpDict w !! owner) in
  addRule su backintime nice ionice cmd uuid sender conn w =
  match validate backintime nice ionice cmd uuid with
  | Raise e => (Raise e, w)
  | Ok _ =>
      if (max_rules <=? length staged)%nat then
        (Raise (LimitExceeded MaxRules), w)
      else if (max_users <=? size (tmpDict w))%nat then
        (Raise (LimitExceeded MaxUsers), w)
      else if (max_cmd_len <? String.length cmd)%nat then
        (Raise (LimitExceeded MaxCmdLen), w)
      else
        (Ok tt, mkWorld (enforce_polkit w)
                  (<[owner := (staged ++ [udev_rule su uuid user cmd])%list]>
                     (tmpDict w))
                  (fs w) (fs_log w))
  end.
Proof.
  intros owner user staged. unfold addRule.
  destruct (validate backintime nice ionice cmd uuid) as [[]|e]; [|done].
  unfold _checkLimits, nameOwner, connectionUnixUser.
  cbv [mbind mret M_bind M_ret raise get set_tmpDict
       ServiceHelper.sender ServiceHelper.dbus_info].
  fold owner user staged.
  destruct (max_rules <=? length staged)%nat; [done|].
  destruct (max_users <=? size (tmpDict w))%nat; [done|].
  destruct (max_cmd_len <? String.length cmd)%nat; [done|].
  case_bool_decide as Hdom; cbn [tmpDict enforce_polkit fs fs_log].
  - rewrite lookup_insert_eq, insert_insert_eq. subst staged.
    apply not_elem_of_dom in Hdom. by rewrite Hdom.
  - done.
Qed.

Lemma addRule_valid cmd uuid sender conn w :
  validate backintime nice ionice cmd uuid = Ok tt ->
  (exists w',
      addRule su backintime nice ionice cmd uuid sender conn w = (Ok tt, w'))
  \/ exists l, addRule su backintime nice ionice cmd uuid sender conn w
               = (Raise (LimitExceeded l), w).
Proof.
  intros Hv. rewrite addRule_unfold, Hv.
  repeat case_match; eauto.
Qed.

Lemma addRule_invalid cmd uuid sender conn w e :
  validate backintime nice ionice cmd uuid = Raise e ->
  addRule su backintime nice ionice cmd uuid sender conn w = (Raise e, w).
Proof. intros Hv. unfold addRule. by rewrite Hv. Qed.

Lemma validate_concatenation cmd uuid :
  Py.find "&&" cmd ≠ -1 ->
  exists e, validate backintime nice ionice cmd uuid = Raise e.
Proof.
  intros H. unfold validate, _validateCmd.
  repeat case_match; eauto; try contradiction.
Qed.

Lemma validate_relative cmd uuid :
  Py.startswith "/" cmd = false ->
  exists e, validate backintime nice ionice cmd uuid = Raise e.
Proof.
  intros H. unfold validate, _validateCmd. rewrite H.
  repeat case_match; eauto; try discriminate.
Qed.

(** C1.  What [addRule] decides about a pair of strings is fixed by the
    strings and the resolved paths alone: whoever calls, and whatever
    is staged, the same pair meets the same validation failure or none.
    A command that holds [&&] is refused with a validation failure, and
    so is a command that does not start with a slash; nothing changes
    in either case. *)
Theorem addRule_validation_decision cmd uuid sender sender' conn conn' w w' :
  validation_failure
    (fst (addRule su backintime nice ionice cmd uuid sender conn w))
  = validation_failure
      (fst (addRule su backintime nice ionice cmd uuid sender' conn' w'))
  /\ (Py.find "&&" cmd ≠ -1 ->
      exists e, addRule su backintime nice ionice cmd uuid sender conn w
                = (Raise e, w)
                /\ is_validation_error e = true)
  /\ (Py.startswith "/" cmd = false ->
      exists e, addRule su backintime nice ionice cmd uuid sender conn w
                = (Raise e, w)
                /\ is_validation_error e = true).
Proof.
  split; [|split].
  - destruct (validate backintime nice ionice cmd uuid) as [[]|e] eqn:Hv.
    + destruct (addRule_valid cmd uuid sender conn w Hv) as [[? ->]|[? ->]];
      destruct (addRule_valid cmd uuid sender' conn' w' Hv) as [[? ->]|[? ->]];
      reflexivity.
    + by rewrite !(addRule_invalid _ _ _ _ _ _ Hv).
  - intros H. destruct (validate_concatenation cmd uuid H) as [e He].
    exists e. eauto using addRule_invalid, validate_raises.
  - intros H. destruct (validate_relative cmd uuid H) as [e He].
    exists e. eauto using addRule_invalid, validate_raises.
Qed.

Lemma addRule_fails_unchanged cmd uuid sender conn w e w' :
  addRule su backintime nice ionice cmd uuid sender conn w = (Raise e, w') ->
  w' = w.
Proof.
  rewrite addRule_unfold. intros H.
  repeat (case_match; try discriminate); by inversion H.
Qed.

(** The limit on the owners is checked on every call, also for an owner
    who is staged already. *)
Lemma addRule_users_limit cmd uuid sender conn w :
  validate backintime nice ionice cmd uuid = Ok tt ->
  (length (staged_by w (GetNameOwner conn sender)) < max_rules)%nat ->
  (max_users <= size (tmpDict w))%nat ->
  addRule su backintime nice ionice cmd uuid sender conn w
  = (Raise (LimitExceeded MaxUsers), w).
Proof.
  intros Hv Hrules Husers. rewrite addRule_unfold, Hv.
  fold (staged_by w (GetNameOwner conn sender)).
  destruct (Nat.leb_spec max_rules
              (length (staged_by w (GetNameOwner conn sender)))); [lia|].
  by destruct (Nat.leb_spec max_users (size (tmpDict w))); [|lia].
Qed.

Lemma addRules_accepted requests : forall sender conn w,
  let owner := GetNameOwner conn sender in
  Forall (acceptable backintime nice ionice) requests ->
  (length (staged_by w owner) + length requests <= max_rules)%nat ->
  (size (delete owner (tmpDict w)) + 1 < max_users)%nat ->
  addRules su backintime nice ionice requests sender conn w =
  (Ok tt,
   match requests with
   | [] => w
   | _ => mkWorld (enforce_polkit w)
            (<[owner := (staged_by w owner
                         ++ map (rule_of su sender conn) requests)%list]>
               (tmpDict w))
            (fs w) (fs_log w)
   end).
Proof.
  induction requests as [|[cmd uuid] requests IH];
    intros sender conn w owner Hok Hlen Husers; [done|].
  apply Forall_cons in Hok as [[Hv Hl] Hok]. simpl in Hv, Hl.
  cbn [addRules]. unfold mbind, M_bind at 1. rewrite addRule_unfold, Hv.
  fold owner. fold (staged_by w owner).
  assert (size (tmpDict w) <= size (delete owner (tmpDict w)) + 1)%nat as Hsz.
  { destruct (tmpDict w !! owner) eqn:Ho.
    - rewrite <- (insert_delete_id (tmpDict w) owner l Ho) at 1.
      rewrite map_size_insert_None by apply lookup_delete_eq. lia.
    - rewrite delete_id by done. lia. }
  cbn [length] in Hlen.
  destruct (Nat.leb_spec max_rules (length (staged_by w owner))); [lia|].
  destruct (Nat.leb_spec max_users (size (tmpDict w))); [lia|].
  destruct (Nat.ltb_spec max_cmd_len (String.length cmd)); [lia|].
  set (w1 := mkWorld _ _ _ _).
  assert (staged_by w1 owner
          = (staged_by w owner ++ [rule_of su sender conn (cmd, uuid)])%list)
    as Hst.
  { unfold staged_by, w1. cbn [tmpDict]. by rewrite lookup_insert_eq. }
  rewrite IH; fold owner; [| done | | ].
  - rewrite Hst. subst w1. cbn [tmpDict enforce_polkit fs fs_log].
    destruct requests; [done|].
    by rewrite insert_insert_eq, <- app_assoc.
  - rewrite Hst, length_app. simpl. lia.
  - subst w1. cbn [tmpDict]. by rewrite delete_insert_eq.
Qed.

(** C4.  An owner with nothing staged, on a service that is not at its
    limit of owners, stages [max_rules] acceptable requests one after
    the other: every call returns and the rules are staged in order.
    The next call with valid strings raises [LimitExceeded] for the
    number of rules and leaves everything as it was, as does any call
    of [addRule] that raises. *)
Theorem addRule_quota_boundary requests cmd uuid sender conn w :
  let owner := GetNameOwner conn sender in
  tmpDict w !! owner = None ->
  (size (tmpDict w) + 1 < max_users)%nat ->
  length requests = max_rules ->
  Forall (acceptable backintime nice ionice) requests ->
  validate backintime nice ionice cmd uuid = Ok tt ->
  exists w',
    addRules su backintime nice ionice requests sender conn w = (Ok tt, w')
    /\ tmpDict w' !! owner = Some (map (rule_of su sender conn) requests)
    /\ length (staged_by w' owner) = max_rules
    /\ addRule su backintime nice ionice cmd uuid sender conn w'
       = (Raise (LimitExceeded MaxRules), w')
    /\ (forall cmd' uuid' e w'',
          addRule su backintime nice ionice cmd' uuid' sender conn w'
          = (Raise e, w'') -> w'' = w').
Proof.
  intros owner Hnone Husers Hlen Hok Hv.
  pose proof (addRules_accepted requests sender conn w Hok) as Hrun.
  cbv zeta in Hrun. fold owner in Hrun.
  unfold staged_by in Hrun at 1 2. rewrite Hnone in Hrun.
  rewrite delete_id in Hrun by done. cbn [default length] in Hrun.
  specialize (Hrun ltac:(lia) ltac:(lia)).
  destruct requests as [|request requests]; [discriminate|].
  eexists. split; [exact Hrun|].
  cbn [tmpDict]. rewrite lookup_insert_eq. cbn [app].
  assert (staged_by
            (mkWorld (enforce_polkit w)
               (<[owner := map (rule_of su sender conn) (request :: requests)]>
                  (tmpDict w)) (fs w) (fs_log w)) owner
          = map (rule_of su sender conn) (request :: requests)) as Hst.
  { unfold staged_by. cbn [tmpDict]. by rewrite lookup_insert_eq. }
  split; [done|]. split; [by rewrite Hst, length_map|]. split.
  - rewrite addRule_unfold, Hv. fold owner.
    fold (staged_by
            (mkWorld (enforce_polkit w)
               (<[owner := map (rule_of su sender conn) (request :: requests)]>
                  (tmpDict w)) (fs w) (fs_log w)) owner).
    rewrite Hst, length_map, Hlen.
    by rewrite Nat.leb_refl.
  - intros. eauto using addRule_fails_unchanged.
Qed.

(** C10.  With the entry point at [/usr/bin/backintime], a command that
    ends in a redirection, or in a single ampersand, passes both
    validations: [>] and [&] are in the class of allowed characters and
    [_validateCmd] looks no further than the entry point.  The command
    stands unchanged inside the quotes of the [su] call of the rule
    that is staged. *)
Theorem addRule_accepts_redirection cmd sender conn w :
  let owner := GetNameOwner conn sender in
  let user := GetConnectionUnixUser conn sender in
  backintime = "/usr/bin/backintime" ->
  nice ≠ backintime -> ionice ≠ backintime ->
  cmd = Example.redirecting_cmd \/ cmd = Example.background_cmd ->
  (length (staged_by w owner) < max_rules)%nat ->
  (size (tmpDict w) < max_users)%nat ->
  validate backintime nice ionice cmd "1234-uuid" = Ok tt
  /\ exists w',
      addRule su backintime nice ionice cmd "1234-uuid" sender conn w
      = (Ok tt, w')
      /\ tmpDict w' !! owner
         = Some (staged_by w owner ++ [udev_rule su "1234-uuid" user cmd])%list
      /\ udev_rule su "1234-uuid" user cmd
         = "ACTION==" +:+ Py.str1 Py.DQUOTE +:+ "add|change"
           +:+ Py.str1 Py.DQUOTE +:+ ", ENV{ID_FS_UUID}=="
           +:+ Py.str1 Py.DQUOTE +:+ "1234-uuid" +:+ Py.str1 Py.DQUOTE
           +:+ ", RUN+=" +:+ Py.str1 Py.DQUOTE
           +:+ (su +:+ " - '" +:+ user +:+ "' -c '" +:+ cmd +:+ "'")
           +:+ Py.str1 Py.DQUOTE +:+ Py.str1 Py.LF.
Proof.
  intros owner user Hb Hn Hi Hcmd Hrules Husers.
  assert (validate backintime nice ionice cmd "1234-uuid" = Ok tt) as Hv.
  { rewrite Hb in Hn, Hi |- *. unfold validate, _validateCmd.
    assert (whitelisted (whitelist nice ionice) "/usr/bin/backintime" = None)
      as Hw.
    { unfold whitelist. cbn [whitelisted].
      rewrite !decide_False by congruence. done. }
    destruct Hcmd as [-> | ->].
    - change (Py.findall _ Example.redirecting_cmd) with (@nil ascii).
      change (Py.findall _ "1234-uuid") with (@nil ascii).
      change (Py.find "&&" Example.redirecting_cmd) with (-1).
      change (Py.startswith "/" Example.redirecting_cmd) with true.
      change (Py.split Example.redirecting_cmd)
        with ["/usr/bin/backintime"; "--backup"; ">/tmp/x"].
      simp pop_whitelisted. by rewrite Hw.
    - change (Py.findall _ Example.background_cmd) with (@nil ascii).
      change (Py.findall _ "1234-uuid") with (@nil ascii).
      change (Py.find "&&" Example.background_cmd) with (-1).
      change (Py.startswith "/" Example.background_cmd) with true.
      change (Py.split Example.background_cmd)
        with ["/usr/bin/backintime"; "--backup"; "&"].
      simp pop_whitelisted. by rewrite Hw. }
  split; [done|]. eexists. split.
  - rewrite addRule_unfold, Hv. fold owner user.
    fold (staged_by w owner).
    destruct (Nat.leb_spec max_rules (length (staged_by w owner))); [lia|].
    destruct (Nat.leb_spec max_users (size (tmpDict w))); [lia|].
    destruct (Nat.ltb_spec max_cmd_len (String.length cmd)) as [Hlen|]; [|done].
    exfalso. destruct Hcmd as [-> | ->]; vm_compute in Hlen; lia.
  - cbn [tmpDict]. by rewrite lookup_insert_eq.
Qed.
End Validation.

Lemma addRule_validation_decision_witness :
  exists e,
    Example.add Example.chained_cmd "1234-uuid" Example.start
    = (Raise e, Example.start)
    /\ is_validation_error e = true.
Proof.
  apply (proj1 (proj2
    (addRule_validation_decision Example.su Example.backintime Example.nice
       Example.ionice Example.chained_cmd "1234-uuid" Example.caller
       Example.caller Example.bus Example.bus Example.start Example.start))).
  vm_compute. discriminate.
Defined.

Lemma addRule_quota_boundary_witness :
  exists w',
    addRules Example.su Example.backintime Example.nice Example.ionice
      (replicate 100 (Example.backup_cmd, "1234-uuid"))
      Example.caller Example.bus Example.start = (Ok tt, w')
    /\ length (staged_by w' Example.caller) = 100%nat
    /\ Example.add Example.backup_cmd "1234-uuid" w'
       = (Raise (LimitExceeded MaxRules), w').
Proof.
  destruct (addRule_quota_boundary Example.su Example.backintime
              Example.nice Example.ionice
              (replicate 100 (Example.backup_cmd, "1234-uuid"))
              Example.backup_cmd "1234-uuid" Example.caller Example.bus
              Example.start)
    as (w' & Hrun & _ & Hlen & Hnext & _).
  - reflexivity.
  - vm_compute. lia.
  - reflexivity.
  - apply Forall_replicate. split; [reflexivity | vm_compute; lia].
  - reflexivity.
  - exists w'. split; [exact Hrun | split; [exact Hlen | exact Hnext]].
Defined.

Lemma addRule_accepts_redirection_witness :
  validate Example.backintime Example.nice Example.ionice
    Example.redirecting_cmd "1234-uuid" = Ok tt
  /\ exists w',
      Example.add Example.redirecting_cmd "1234-uuid" Example.start
      = (Ok tt, w')
      /\ tmpDict w' !! Example.caller
         = Some [udev_rule Example.su "1234-uuid" "alice"
                   Example.redirecting_cmd].
Proof.
  destruct (addRule_accepts_redirection Example.su Example.backintime
              Example.nice Example.ionice Example.redirecting_cmd
              Example.caller Example.bus Example.start)
    as (Hv & w' & Hadd & Hstaged & _).
  - reflexivity.
  - discriminate.
  - discriminate.
  - left. reflexivity.
  - vm_compute. lia.
  - vm_compute. lia.
  - split; [exact Hv|]. exists w'. split; [exact Hadd | exact Hstaged].
Defined.

(** ** The service: saving and deleting the rule file *)

Lemma append_nil (b : string) : EmptyString +:+ b = b.
Proof. reflexivity. Qed.

Lemma append_cons x (a b : string) : String x a +:+ b = String x (a +:+ b).
Proof. reflexivity. Qed.

Lemma append_assoc (a b c : string) : (a +:+ b) +:+ c = a +:+ (b +:+ c).
Proof. induction a as [|x a IH]; [done|]. rewrite !append_cons. by f_equal. Qed.

Lemma list_ascii_of_append (a b : string) :
  list_ascii_of_string (a +:+ b)
  = (list_ascii_of_string a ++ list_ascii_of_string b)%list.
Proof.
  induction a as [|x a IH]; [done|]. rewrite append_cons. simpl. by f_equal.
Qed.

Lemma no_line_end_append a b :
  no_line_end (a +:+ b) = no_line_end a && no_line_end b.
Proof. unfold no_line_end. by rewrite list_ascii_of_append, forallb_app. Qed.

Lemma no_CR_append a b : no_CR (a +:+ b) = no_CR a && no_CR b.
Proof. unfold no_CR. by rewrite list_ascii_of_append, forallb_app. Qed.

Lemma no_line_end_no_CR s : no_line_end s = true -> no_CR s = true.
Proof.
  unfold no_line_end, no_CR. induction (list_ascii_of_string s) as [|c l IH];
    simpl; [done|].
  intros [[_ ->]%andb_true_iff Hl]%andb_true_iff. by apply IH.
Qed.

Lemma universal_newlines_id s : no_CR s = true -> universal_newlines s = s.
Proof.
  unfold no_CR. induction s as [|c s IH]; simpl; [done|].
  intros [Hc Hs]%andb_true_iff.
  destruct (ascii_dec c Py.CR) as [->|_].
  - by rewrite bool_decide_true in Hc.
  - by rewrite IH.
Qed.

Lemma lines_from_line body : forall line rest,
  no_line_end body = true ->
  lines_from line (body +:+ String Py.LF rest)
  = (line +:+ body +:+ Py.str1 Py.LF) :: lines_from EmptyString rest.
Proof.
  induction body as [|c body IH]; intros line rest Hb.
  - rewrite !append_nil. simpl.
    destruct (ascii_dec Py.LF Py.LF); [done|congruence].
  - unfold no_line_end in Hb. simpl in Hb.
    apply andb_true_iff in Hb as [[Hc _]%andb_true_iff Hb].
    rewrite append_cons. simpl. destruct (ascii_dec c Py.LF) as [->|_].
    + by rewrite bool_decide_true in Hc.
    + rewrite (IH _ _ Hb). by rewrite append_assoc.
Qed.

Lemma lines_from_join rules :
  Forall is_line rules ->
  lines_from EmptyString (Py.join rules) = rules.
Proof.
  induction 1 as [|r rules (body & -> & Hb) _ IH]; [done|].
  cbn [Py.join foldr]. fold (Py.join rules).
  rewrite append_assoc. unfold Py.str1 at 1. rewrite append_cons, append_nil.
  rewrite lines_from_line by done. by rewrite IH.
Qed.

Lemma no_CR_join rules : Forall is_line rules -> no_CR (Py.join rules) = true.
Proof.
  induction 1 as [|r rules (body & -> & Hb) _ IH]; [done|].
  cbn [Py.join foldr]. fold (Py.join rules).
  rewrite !no_CR_append, IH, (no_line_end_no_CR _ Hb). done.
Qed.

Lemma readlines_join rules :
  Forall is_line rules -> readlines (Py.join rules) = rules.
Proof.
  intros H. unfold readlines.
  rewrite universal_newlines_id by by apply no_CR_join.
  by apply lines_from_join.
Qed.

Section Service.
Variables su backintime nice ionice : string.
Variable recursion_limit : nat.

Local Abbreviation check := (_checkPolkitPrivilege recursion_limit).
Local Abbreviation save := (ServiceHelper.save recursion_limit).
Local Abbreviation delete_ := (ServiceHelper.delete_ recursion_limit).

Lemma _clean_unfold owner w : _clean owner w = (Ok tt, cleaned owner w).
Proof.
  unfold _clean, cleaned. cbv [mbind mret M_bind M_ret get set_tmpDict].
  case_bool_decide as Hdom; [done|].
  apply not_elem_of_dom in Hdom. rewrite delete_id by done. by destruct w.
Qed.

Lemma check_from_world depth : forall attempt polkit sender conn privilege w,
  snd (_checkPolkitPrivilege_from depth attempt polkit sender conn privilege w)
  = w.
Proof.
  induction depth as [|depth IH]; intros attempt polkit sndr conn privilege w;
    [done|].
  cbn [_checkPolkitPrivilege_from].
  destruct (negb (is_Some_b sndr) && negb (is_Some_b conn)); [done|].
  cbv [mbind mret M_bind M_ret get raise].
  destruct (negb (enforce_polkit w)); [done|].
  destruct (polkit sndr privilege attempt) as [[]|name]; [done|done|].
  destruct (decide (name = ServiceUnknown)); [apply IH|done].
Qed.

Lemma check_cases polkit sender conn privilege w :
  check polkit sender conn privilege w = (Ok tt, w)
  \/ exists e, check polkit sender conn privilege w = (Raise e, w).
Proof.
  pose proof
    (check_from_world recursion_limit 0 polkit sender conn privilege w) as H.
  unfold _checkPolkitPrivilege.
  destruct (_checkPolkitPrivilege_from _ _ _ _ _ _ _) as [[[]|e] w'];
    simpl in H; subst; eauto.
Qed.

(** While polkit only answers with errors, the check raises. *)
Lemma check_from_unreachable depth :
  forall attempt polkit sender conn privilege w,
  enforce_polkit w = true ->
  (forall n, exists name, polkit (Some sender) privilege n = Error name) ->
  exists e,
    _checkPolkitPrivilege_from depth attempt polkit (Some sender) conn
      privilege w
    = (Raise e, w).
Proof.
  induction depth as [|depth IH];
    intros attempt polkit sender conn privilege w He Hp; [by eexists|].
  cbn [_checkPolkitPrivilege_from is_Some_b negb andb].
  cbv [mbind mret M_bind M_ret get raise]. rewrite He. cbn [negb].
  destruct (Hp attempt) as [name ->].
  destruct (decide (name = ServiceUnknown)); [by apply IH|by eexists].
Qed.

Lemma check_granted polkit sender conn privilege w :
  (0 < recursion_limit)%nat ->
  polkit (Some sender) privilege 0%nat = Reply true ->
  check polkit (Some sender) conn privilege w = (Ok tt, w).
Proof.
  unfold _checkPolkitPrivilege. destruct recursion_limit; [lia|]. intros _ Hp.
  cbn [_checkPolkitPrivilege_from is_Some_b negb andb].
  cbv [mbind mret M_bind M_ret get raise]. rewrite Hp.
  by destruct (negb (enforce_polkit w)).
Qed.

Lemma check_denied polkit sender conn privilege w :
  (0 < recursion_limit)%nat ->
  enforce_polkit w = true ->
  polkit (Some sender) privilege 0%nat = Reply false ->
  check polkit (Some sender) conn privilege w
  = (Raise (PermissionDeniedByPolicy privilege), w).
Proof.
  unfold _checkPolkitPrivilege. destruct recursion_limit; [lia|].
  intros _ He Hp.
  cbn [_checkPolkitPrivilege_from is_Some_b negb andb].
  cbv [mbind mret M_bind M_ret get raise]. by rewrite He, Hp.
Qed.

Lemma delete_unfold polkit sender conn w :
  let owner := GetNameOwner conn sender in
  let path := UDEV_RULES_PATH (GetConnectionUnixUser conn sender) in
  let w1 := cleaned owner w in
  delete_ polkit sender conn w =
  match fs w !! path with
  | Some _ =>
      match check polkit (Some sender) (Some conn) UdevRuleDelete w1 with
      | (Ok _, _) => (Ok tt, with_fs (delete path (fs w)) w1)
      | (Raise e, _) => (Raise e, w1)
      end
  | None => (Ok tt, w1)
  end.
Proof.
  intros owner path w1.
  unfold ServiceHelper.delete_, nameOwner, connectionUnixUser.
  cbn [ServiceHelper.sender ServiceHelper.dbus_info].
  unfold mbind at 1, M_bind at 1. rewrite _clean_unfold.
  fold owner path w1. unfold mbind at 1, M_bind at 1, get at 1.
  change (fs w1) with (fs w).
  destruct (fs w !! path) as [content|] eqn:Hf.
  - rewrite bool_decide_true by (apply elem_of_dom; eauto).
    unfold mbind, M_bind.
    destruct (check_cases polkit (Some sender) (Some conn) UdevRuleDelete w1)
      as [H | [e H]]; unfold UdevRuleDelete in *; rewrite H; done.
  - by rewrite bool_decide_false by (apply not_elem_of_dom; exact Hf).
Qed.

Lemma save_unfold polkit sender conn w :
  let owner := GetNameOwner conn sender in
  let path := UDEV_RULES_PATH (GetConnectionUnixUser conn sender) in
  save polkit sender conn w =
  match tmpDict w !! owner with
  | None | Some [] =>
      match delete_ polkit sender conn w with
      | (Ok _, w') => (Ok false, w')
      | (Raise e, w') => (Raise e, w')
      end
  | Some rules =>
      if match fs w !! path with
         | Some content => bool_decide (rules = readlines content)
         | None => false
         end
      then (Ok false, cleaned owner w)
      else
        match check polkit (Some sender) (Some conn) UdevRuleSave w with
        | (Ok _, _) =>
            (Ok true,
             cleaned owner
               (with_fs (<[path := Py.join rules]>
                           (<[path := EmptyString]> (fs w)))
                  (with_fs (<[path := EmptyString]> (fs w)) w)))
        | (Raise e, _) => (Raise e, w)
        end
  end.
Proof.
  intros owner path. unfold ServiceHelper.save, nameOwner, connectionUnixUser.
  cbn [ServiceHelper.sender ServiceHelper.dbus_info].
  unfold mbind at 1, M_bind at 1, get at 1. fold owner path.
  destruct (tmpDict w !! owner) as [[|rule rules]|] eqn:Hs.
  - unfold mbind, M_bind.
    by destruct (delete_ polkit sender conn w) as [[[]|e] w'].
  - match goal with |- context [if ?b then _ else _] => destruct b end.
    + unfold mbind, M_bind. by rewrite _clean_unfold.
    + unfold mbind at 1, M_bind at 1.
      destruct (check_cases polkit (Some sender) (Some conn) UdevRuleSave w)
        as [H | [e H]]; unfold UdevRuleSave in *; rewrite H; [|done].
      unfold write_file. cbv [mbind mret M_bind M_ret get set_fs].
      rewrite _clean_unfold. unfold with_fs, cleaned.
      by cbn [fs tmpDict enforce_polkit fs_log].
  - unfold mbind, M_bind.
    by destruct (delete_ polkit sender conn w) as [[[]|e] w'].
Qed.

(** *** What is staged is made of whole lines *)

Lemma findall_nil_forallb class s :
  Py.findall (fun c => negb (class c)) s = [] ->
  forallb class (list_ascii_of_string s) = true.
Proof.
  unfold Py.findall. induction (list_ascii_of_string s) as [|c l IH]; [done|].
  simpl. destruct (class c) eqn:Hc.
  - rewrite filter_cons_False by (rewrite Hc; discriminate). exact IH.
  - rewrite filter_cons_True by (by rewrite Hc). discriminate.
Qed.

Lemma allowed_no_line_end class s :
  class Py.LF = false -> class Py.CR = false ->
  forallb class (list_ascii_of_string s) = true -> no_line_end s = true.
Proof.
  intros HLF HCR. unfold no_line_end.
  induction (list_ascii_of_string s) as [|c l IH]; [done|]. simpl.
  intros [Hc Hl]%andb_true_iff. rewrite (IH Hl), andb_true_r.
  do 2 case_bool_decide; subst; simpl; congruence.
Qed.

Lemma validate_no_line_end cmd uuid :
  validate backintime nice ionice cmd uuid = Ok tt ->
  no_line_end cmd = true /\ no_line_end uuid = true.
Proof.
  unfold validate.
  case_bool_decide as Hc; cbn [negb]; [|discriminate].
  case_bool_decide as Hu; cbn [negb]; [|discriminate].
  intros _. split.
  - by eapply (allowed_no_line_end cmd_char), findall_nil_forallb.
  - by eapply (allowed_no_line_end uuid_char), findall_nil_forallb.
Qed.

Lemma udev_rule_is_line uuid user cmd :
  no_line_end su = true -> no_line_end user = true ->
  no_line_end cmd = true -> no_line_end uuid = true ->
  is_line (udev_rule su uuid user cmd).
Proof.
  intros Hsu Huser Hcmd Huuid. unfold is_line, udev_rule, sucmd.
  eexists
    ("ACTION==" +:+ Py.str1 Py.DQUOTE +:+ "add|change" +:+ Py.str1 Py.DQUOTE
     +:+ ", ENV{ID_FS_UUID}==" +:+ Py.str1 Py.DQUOTE +:+ uuid
     +:+ Py.str1 Py.DQUOTE +:+ ", RUN+=" +:+ Py.str1 Py.DQUOTE
     +:+ (su +:+ " - '" +:+ user +:+ "' -c '" +:+ cmd +:+ "'")
     +:+ Py.str1 Py.DQUOTE).
  split.
  - by rewrite !append_assoc.
  - rewrite !no_line_end_append, Hsu, Huser, Hcmd, Huuid. reflexivity.
Qed.

Lemma staged_lines_cleaned owner w :
  staged_lines w -> staged_lines (cleaned owner w).
Proof.
  intros H o rules. unfold cleaned. cbn [tmpDict].
  intros Ho%lookup_delete_Some. by apply (H o), Ho.
Qed.

Lemma staged_lines_with_fs f w : staged_lines w -> staged_lines (with_fs f w).
Proof. done. Qed.

Lemma staged_lines_addRule cmd uuid sender conn w :
  no_line_end su = true ->
  no_line_end (GetConnectionUnixUser conn sender) = true ->
  staged_lines w ->
  staged_lines (snd (addRule su backintime nice ionice cmd uuid sender conn w)).
Proof.
  intros Hsu Huser Hw. rewrite addRule_unfold.
  destruct (validate backintime nice ionice cmd uuid) as [[]|e] eqn:Hv; [|done].
  apply validate_no_line_end in Hv as [Hcmd Huuid].
  repeat (case_match; [done|]). cbn [snd].
  intros o rules. cbn [tmpDict].
  intros [[<- <-] | [_ Ho]]%lookup_insert_Some; [|by apply (Hw o)].
  apply Forall_app. split.
  - destruct (tmpDict w !! _) as [staged|] eqn:Hs; [|done].
    by apply (Hw _ _ Hs).
  - apply Forall_singleton. by apply udev_rule_is_line.
Qed.

Lemma staged_lines_delete polkit sender conn w :
  staged_lines w -> staged_lines (snd (delete_ polkit sender conn w)).
Proof.
  intros Hw. rewrite delete_unfold.
  repeat case_match; cbn [snd];
    auto using staged_lines_cleaned, staged_lines_with_fs.
Qed.

Lemma staged_lines_save polkit sender conn w :
  staged_lines w -> staged_lines (snd (save polkit sender conn w)).
Proof.
  intros Hw. rewrite save_unfold.
  pose proof (staged_lines_delete polkit sender conn w Hw).
  repeat case_match; simplify_eq/=;
    auto using staged_lines_cleaned, staged_lines_with_fs.
Qed.

Lemma reachable_staged_lines w :
  no_line_end su = true ->
  reachable su backintime nice ionice recursion_limit w -> staged_lines w.
Proof.
  intros Hsu. induction 1.
  - intros o rules. cbn [tmpDict]. by rewrite lookup_empty.
  - by apply staged_lines_addRule.
  - by apply staged_lines_save.
  - by apply staged_lines_delete.
  - unfold clean. rewrite _clean_unfold. by apply staged_lines_cleaned.
Qed.

(** C2.  On a service reached from its start by calls whose users have
    names without line ends, and with such a path to [su]: when [save]
    returns [True] for an owner who had staged [rules], the rule file of
    the user exists, and reading its lines gives [rules] again, each rule
    character for character, under the very comparison [save] makes to
    find that nothing has changed. *)
Theorem save_round_trip polkit sender conn w rules w' :
  let owner := GetNameOwner conn sender in
  let path := UDEV_RULES_PATH (GetConnectionUnixUser conn sender) in
  no_line_end su = true ->
  reachable su backintime nice ionice recursion_limit w ->
  tmpDict w !! owner = Some rules ->
  save polkit sender conn w = (Ok true, w') ->
  exists content,
    fs w' !! path = Some content
    /\ readlines content = rules
    /\ bool_decide (rules = readlines content) = true.
Proof.
  intros owner path Hsu Hw%reachable_staged_lines Hrules; [|done].
  rewrite save_unfold. fold owner path. rewrite Hrules.
  assert (Forall is_line rules) as Hlines by by apply (Hw owner).
  intros Hsave. exists (Py.join rules).
  rewrite readlines_join by done.
  split; [|split; [done | by apply bool_decide_true]].
  destruct rules as [|rule rules].
  - by destruct (delete_ polkit sender conn w) as [[[]|e] w''].
  - repeat (case_match; try discriminate); injection Hsave as <-.
    all: unfold cleaned, with_fs; cbn [fs]; apply lookup_insert_eq.
Qed.

Lemma cleaned_unstaged owner w :
  tmpDict w !! owner = None -> cleaned owner w = w.
Proof.
  intros H. unfold cleaned. rewrite delete_id by done. by destruct w.
Qed.

(** A [save] that returns leaves nothing staged for the owner. *)
Lemma save_returns_unstaged polkit sender conn w b w' :
  save polkit sender conn w = (Ok b, w') ->
  tmpDict w' !! GetNameOwner conn sender = None.
Proof.
  rewrite save_unfold, delete_unfold. intros Hsave.
  repeat (case_match; try discriminate); injection Hsave as <- <-;
    repeat match goal with H : (_, _) = (_, _) |- _ => injection H as <- <- end;
    unfold cleaned, with_fs; cbn [tmpDict]; apply lookup_delete_eq.
Qed.

(** C3, as amended.  After a [save] that returned, a second [save] of the
    same connection never returns [True].  It acts as [delete]: with no
    rule file for the user it returns [False] and changes nothing; with
    one, it asks for the privilege to delete, and returns [False] with the
    file removed when that is granted, or raises
    [PermissionDeniedByPolicy], the world left as it was, when that is
    denied. *)
Theorem save_twice polkit polkit' sender conn w b w1 :
  let path := UDEV_RULES_PATH (GetConnectionUnixUser conn sender) in
  let second := save polkit' sender conn w1 in
  save polkit sender conn w = (Ok b, w1) ->
  fst second <> Ok true
  /\ (fs w1 !! path = None -> second = (Ok false, w1))
  /\ ((0 < recursion_limit)%nat ->
      polkit' (Some sender) UdevRuleDelete 0%nat = Reply true ->
      fst second = Ok false /\ fs (snd second) !! path = None)
  /\ ((0 < recursion_limit)%nat ->
      enforce_polkit w1 = true ->
      is_Some (fs w1 !! path) ->
      polkit' (Some sender) UdevRuleDelete 0%nat = Reply false ->
      second = (Raise (PermissionDeniedByPolicy UdevRuleDelete), w1)).
Proof.
  intros path second Hfirst%save_returns_unstaged. subst second.
  rewrite save_unfold, Hfirst, delete_unfold, (cleaned_unstaged _ _ Hfirst).
  fold path. split; [|split; [|split]].
  - repeat case_match; simplify_eq/=; discriminate.
  - by intros ->.
  - intros Hlim Hgrant. rewrite (check_granted _ _ _ _ _ Hlim Hgrant).
    destruct (fs w1 !! path) eqn:Hf; cbn [fst snd]; [|done].
    split; [done|]. unfold with_fs. cbn [fs]. apply lookup_delete_eq.
  - intros Hlim He [content Hf] Hdeny.
    by rewrite Hf, (check_denied _ _ _ _ _ Hlim He Hdeny).
Qed.

Lemma check_unreachable polkit sender conn privilege w :
  enforce_polkit w = true ->
  (forall n, exists name, polkit (Some sender) privilege n = Error name) ->
  exists e, check polkit (Some sender) conn privilege w = (Raise e, w).
Proof. apply check_from_unreachable. Qed.

(** The check returns only on an answer of polkit that grants. *)
Lemma check_from_returns depth : forall attempt polkit sndr conn privilege w w',
  enforce_polkit w = true ->
  _checkPolkitPrivilege_from depth attempt polkit (Some sndr) conn privilege w
  = (Ok tt, w') ->
  exists n, polkit (Some sndr) privilege n = Reply true.
Proof.
  induction depth as [|depth IH];
    intros attempt polkit sndr conn privilege w w' He; [done|].
  cbn [_checkPolkitPrivilege_from is_Some_b negb andb].
  cbv [mbind mret M_bind M_ret get raise]. rewrite He. cbn [negb].
  destruct (polkit (Some sndr) privilege attempt) as [[]|name] eqn:Hp;
    [eauto | done |].
  destruct (decide (name = ServiceUnknown)); [by apply IH | done].
Qed.

Lemma check_denying denying sender conn privilege w :
  enforce_polkit w = true ->
  (forall n, denying (Some sender) privilege n = Reply false) ->
  exists e, check denying (Some sender) conn privilege w = (Raise e, w).
Proof.
  intros He Hd. unfold _checkPolkitPrivilege.
  destruct recursion_limit; [by eexists|].
  cbn [_checkPolkitPrivilege_from is_Some_b negb andb].
  cbv [mbind mret M_bind M_ret get raise]. rewrite He, Hd. by eexists.
Qed.

(** What a call does when the check can only raise. *)
Lemma delete_check_raises polkit sender conn w :
  let owner := GetNameOwner conn sender in
  let path := UDEV_RULES_PATH (GetConnectionUnixUser conn sender) in
  (forall privilege w0, enforce_polkit w0 = enforce_polkit w ->
     exists e,
       check polkit (Some sender) (Some conn) privilege w0 = (Raise e, w0)) ->
  snd (delete_ polkit sender conn w) = cleaned owner w
  /\ (fs w !! path = None -> fst (delete_ polkit sender conn w) = Ok tt)
  /\ (is_Some (fs w !! path) ->
      exists e, fst (delete_ polkit sender conn w) = Raise e).
Proof.
  intros owner path Hcheck. rewrite delete_unfold. fold owner path.
  destruct (Hcheck UdevRuleDelete (cleaned owner w) eq_refl) as [e ->].
  destruct (fs w !! path); cbn [fst snd]; repeat split; eauto; try done.
Qed.

Lemma save_check_raises polkit sender conn w :
  let owner := GetNameOwner conn sender in
  let path := UDEV_RULES_PATH (GetConnectionUnixUser conn sender) in
  (forall privilege w0, enforce_polkit w0 = enforce_polkit w ->
     exists e,
       check polkit (Some sender) (Some conn) privilege w0 = (Raise e, w0)) ->
  fst (save polkit sender conn w) <> Ok true
  /\ snd (save polkit sender conn w)
     = match staged_by w owner with
       | [] => cleaned owner w
       | rules =>
           match fs w !! path with
           | Some content =>
               if bool_decide (rules = readlines content)
               then cleaned owner w else w
           | None => w
           end
       end
  /\ (fst (save polkit sender conn w) = Ok false ->
      match staged_by w owner with
      | [] => fs w !! path = None
      | rules => exists content,
          fs w !! path = Some content /\ rules = readlines content
      end).
Proof.
  intros owner path Hcheck.
  destruct (delete_check_raises polkit sender conn w Hcheck)
    as (Hw & Hnone & Hsome).
  fold owner path in Hw, Hnone, Hsome.
  rewrite save_unfold. fold owner path. unfold staged_by.
  destruct (Hcheck UdevRuleSave w eq_refl) as [e ->].
  destruct (tmpDict w !! owner) as [[|rule rules]|] eqn:Hs; simpl.
  - destruct (delete_ polkit sender conn w) as [[[]|e1] w1];
      cbn [fst snd] in *; repeat split; try done.
    intros _. destruct (fs w !! path); [|done].
    destruct Hsome as [? ?]; by eauto.
  - destruct (fs w !! path) as [content|]; [case_bool_decide as Hid|];
      cbn [fst snd]; repeat split; eauto; try done.
  - destruct (delete_ polkit sender conn w) as [[[]|e1] w1];
      cbn [fst snd] in *; repeat split; try done.
    intros _. destruct (fs w !! path); [|done].
    destruct Hsome as [? ?]; by eauto.
Qed.

(** C5.  While polkit is enforced and every call of [CheckAuthorization]
    raises, the check raises for every privilege and never returns.  [save]
    does not return [True] and [delete] raises when a rule file exists;
    neither touches the files, and each leaves the very world it leaves when
    polkit denies.  [save] returns [False] only where it asks for nothing:
    no rules staged and no file, or rules staged that are the lines of the
    file. *)
Theorem polkit_unreachable_fails_closed polkit denying sender conn w :
  let owner := GetNameOwner conn sender in
  let path := UDEV_RULES_PATH (GetConnectionUnixUser conn sender) in
  enforce_polkit w = true ->
  (forall privilege n,
     exists name, polkit (Some sender) privilege n = Error name) ->
  (forall privilege n, denying (Some sender) privilege n = Reply false) ->
  (forall privilege,
      exists e,
        check polkit (Some sender) (Some conn) privilege w = (Raise e, w))
  /\ (fst (save polkit sender conn w) <> Ok true
      /\ fs (snd (save polkit sender conn w)) = fs w
      /\ fs_log (snd (save polkit sender conn w)) = fs_log w
      /\ snd (save polkit sender conn w) = snd (save denying sender conn w)
      /\ (fst (save polkit sender conn w) = Ok false ->
          match staged_by w owner with
          | [] => fs w !! path = None
          | rules => exists content,
              fs w !! path = Some content /\ rules = readlines content
          end))
  /\ (fs (snd (delete_ polkit sender conn w)) = fs w
      /\ fs_log (snd (delete_ polkit sender conn w)) = fs_log w
      /\ snd (delete_ polkit sender conn w)
         = snd (delete_ denying sender conn w)
      /\ (is_Some (fs w !! path) ->
          exists e, fst (delete_ polkit sender conn w) = Raise e)).
Proof.
  intros owner path He Hp Hd.
  assert (forall privilege w0, enforce_polkit w0 = enforce_polkit w ->
            exists e, check polkit (Some sender) (Some conn) privilege w0
                      = (Raise e, w0)) as Hcheck.
  { intros privilege w0 He0. apply check_unreachable; [congruence | done]. }
  assert (forall privilege w0, enforce_polkit w0 = enforce_polkit w ->
            exists e, check denying (Some sender) (Some conn) privilege w0
                      = (Raise e, w0)) as Hdeny.
  { intros privilege w0 He0. apply check_denying; [congruence | done]. }
  destruct (delete_check_raises polkit sender conn w Hcheck)
    as (Hw & _ & Hsome).
  destruct (delete_check_raises denying sender conn w Hdeny) as (Hw' & _ & _).
  destruct (save_check_raises polkit sender conn w Hcheck)
    as (Hres & Hsw & Hfalse).
  destruct (save_check_raises denying sender conn w Hdeny) as (_ & Hsw' & _).
  fold owner path in Hw, Hw', Hsome, Hsw, Hsw', Hfalse.
  split; [by auto|]. split.
  - split; [done|]. rewrite Hsw, Hsw'. repeat split; [| |done].
    + by repeat case_match.
    + by repeat case_match.
  - rewrite Hw, Hw'. by repeat split.
Qed.

(** C6, as amended.  A [save] that returns [True] writes the rule file in
    place, in two steps that other processes can see: the file is created
    or truncated to nothing, and then it holds the staged rules joined.  No
    other file changes, and with polkit enforced the steps are taken only
    after polkit has granted the privilege to save. *)
Theorem save_writes_in_place polkit sender conn w w' :
  let owner := GetNameOwner conn sender in
  let path := UDEV_RULES_PATH (GetConnectionUnixUser conn sender) in
  save polkit sender conn w = (Ok true, w') ->
  exists rules,
    tmpDict w !! owner = Some rules
    /\ fs_log w'
       = (fs_log w ++ [ <[path := EmptyString]> (fs w);
                        <[path := Py.join rules]> (fs w) ])%list
    /\ fs w' = <[path := Py.join rules]> (fs w)
    /\ (enforce_polkit w = true ->
        exists n, polkit (Some sender) UdevRuleSave n = Reply true).
Proof.
  intros owner path. rewrite save_unfold. fold owner path.
  destruct (tmpDict w !! owner) as [[|rule rules]|] eqn:Hs.
  1, 3: by destruct (delete_ polkit sender conn w) as [[[]|e] w1].
  destruct (match fs w !! path with Some _ => _ | None => _ end); [done|].
  destruct (check polkit (Some sender) (Some conn) UdevRuleSave w)
    as [[[]|e] w1] eqn:Hcheck; [|done].
  intros [= <-]. exists (rule :: rules).
  unfold cleaned, with_fs. cbn [fs fs_log].
  split; [done|]. split; [|split].
  - rewrite <- app_assoc. cbn [app]. do 3 f_equal. apply insert_insert_eq.
  - apply insert_insert_eq.
  - intros He. by eapply check_from_returns.
Qed.
End Service.

(** C3 as stated fails: a first [save] writes the rules and returns [True];
    a second one, with polkit now denying, raises and does not return
    [False]. *)
Lemma save_twice_denied :
  let first := save 1000 Example.granting Example.caller Example.bus
                 Example.staged in
  let second := save 1000 Example.denying Example.caller Example.bus
                  (snd first) in
  fst first = Ok true
  /\ fst second = Raise (PermissionDeniedByPolicy UdevRuleDelete)
  /\ fst second <> Ok false.
Proof. vm_compute. repeat split. discriminate. Qed.

(** C6 as stated fails: while [save] replaces a rule file, the file is to be
    found empty, which is neither what it held before nor what it holds
    after. *)
Lemma save_truncates_first :
  let old := mkWorld true ∅ {[ Example.rules_file := "old rule" ]} [] in
  let staged := snd (Example.add Example.backup_cmd "1234-uuid" old) in
  let saved := save 1000 Example.granting Example.caller Example.bus staged in
  fst saved = Ok true
  /\ ~ atomic_write Example.rules_file (fs staged) (fs (snd saved))
        (fs_log (snd saved)).
Proof.
  split; [by vm_compute|].
  unfold atomic_write. refine (proj1 (bool_decide_eq_false _) _).
  by vm_compute.
Qed.

Lemma save_round_trip_witness :
  let saved := save 1000 Example.granting Example.caller Example.bus
                 Example.staged in
  exists content,
    fs (snd saved) !! Example.rules_file = Some content
    /\ readlines content = [Example.rule]
    /\ bool_decide ([Example.rule] = readlines content) = true.
Proof.
  apply (save_round_trip Example.su Example.backintime Example.nice
           Example.ionice 1000 Example.granting Example.caller Example.bus
           Example.staged).
  - vm_compute; reflexivity.
  - apply reachable_addRule; [apply reachable_init | vm_compute; reflexivity].
  - vm_compute; reflexivity.
  - vm_compute; reflexivity.
Defined.

Lemma save_twice_witness :
  let first := save 1000 Example.granting Example.caller Example.bus
                 Example.staged in
  fst (save 1000 Example.granting Example.caller Example.bus (snd first))
  <> Ok true
  /\ save 1000 Example.denying Example.caller Example.bus (snd first)
     = (Raise (PermissionDeniedByPolicy UdevRuleDelete), snd first).
Proof.
  split.
  - apply (save_twice 1000 Example.granting Example.granting Example.caller
             Example.bus Example.staged true).
    vm_compute; reflexivity.
  - apply (save_twice 1000 Example.granting Example.denying Example.caller
             Example.bus Example.staged true).
    + vm_compute; reflexivity.
    + lia.
    + vm_compute; reflexivity.
    + eexists. vm_compute; reflexivity.
    + vm_compute; reflexivity.
Defined.

Lemma polkit_unreachable_fails_closed_witness :
  let saved := save 1000 Example.unreachable Example.caller Example.bus
                 Example.staged in
  fst saved <> Ok true /\ fs (snd saved) = fs Example.staged.
Proof.
  destruct (polkit_unreachable_fails_closed 1000 Example.unreachable
              Example.denying Example.caller Example.bus Example.staged)
    as (_ & (Hres & Hfs & _) & _).
  - vm_compute; reflexivity.
  - intros privilege n. eexists. vm_compute; reflexivity.
  - vm_compute; reflexivity.
  - split; [exact Hres | exact Hfs].
Defined.

Lemma save_writes_in_place_witness :
  let saved := save 1000 Example.granting Example.caller Example.bus
                 Example.staged in
  exists rules,
    tmpDict Example.staged !! Example.caller = Some rules
    /\ fs_log (snd saved)
       = [ <[Example.rules_file := EmptyString]> (fs Example.staged);
           <[Example.rules_file := Py.join rules]> (fs Example.staged) ].
Proof.
  destruct (save_writes_in_place 1000 Example.granting Example.caller
              Example.bus Example.staged
              (snd (save 1000 Example.granting Example.caller Example.bus
                      Example.staged)))
    as (rules & Hstaged & Hlog & _).
  - vm_compute; reflexivity.
  - exists rules. split; [exact Hstaged | exact Hlog].
Defined.

End ServiceHelperFacts.

(** ** [tools.py]: the capability probe and the executor *)

Module ToolsFacts.
Import Tools.

Section RsyncCaps.
Variable V : Type.
Variable Version : string -> Result V.
Variable ge : V -> V -> bool.
Variable rsync_version : Result string.

(** The loop over the matchers, when every group it meets is a version. *)
Lemma progress2_parsed ms data v31 :
  Version "3.1" = Ok v31 ->
  (forall matcher group, matcher ∈ ms -> matcher data = Some group ->
     exists v, Version group = Ok v) ->
  exists p, progress2 V Version ge ms data = Ok p
    /\ (p = true <->
        exists matcher group v,
          matcher ∈ ms /\ matcher data = Some group
          /\ Version group = Ok v /\ ge v v31 = true).
Proof.
  intros H31. induction ms as [|matcher ms IH]; intros Hparse.
  - exists false. split; [done|]. split; [done|].
    intros (m & _ & _ & Hm & _). by apply elem_of_nil in Hm.
  - destruct IH as (p & Hp & Hiff).
    { intros m g Hm. apply Hparse. by right. }
    cbn [progress2]. destruct (matcher data) as [group|] eqn:Hmatch.
    + destruct (Hparse matcher group) as [v Hv]; [by left | done |].
      rewrite Hv, H31. destruct (ge v v31) eqn:Hge.
      * exists true. split; [done|]. split; [|done]. intros _.
        exists matcher, group, v. repeat split; try done. by left.
      * exists p. split; [done|]. rewrite Hiff. split.
        -- intros (m & g & v' & Hm & ?). exists m, g, v'.
           split; [by right|done].
        -- intros (m & g & v' & [->|Hm]%elem_of_cons & Hg & Hv' & Hge').
           ++ congruence.
           ++ by exists m, g, v'.
    + exists p. split; [done|]. rewrite Hiff. split.
      * intros (m & g & v' & Hm & ?). exists m, g, v'. split; [by right|done].
      * intros (m & g & v' & [->|Hm]%elem_of_cons & Hg & Hv' & Hge').
        -- congruence.
        -- by exists m, g, v'.
Qed.

(** C9, as amended.  On a text that is not empty, and when every group a
    version pattern finds in it is a version for [Version], [rsyncCaps]
    returns a list.  The list is empty when neither version pattern nor
    the pattern of the capabilities matches.  It holds [progress2] exactly
    when a version pattern finds a version that is 3.1 at least, or the
    capabilities listed in the text name [progress2] themselves. *)
Theorem rsyncCaps_parsed data v31 :
  Py.is_empty data = false ->
  Version "3.1" = Ok v31 ->
  (forall matcher group, matcher ∈ matchers -> matcher data = Some group ->
     exists v, Version group = Ok v) ->
  exists caps,
    rsyncCaps V Version ge rsync_version (Some data) = Ok caps
    /\ ((forall matcher, matcher ∈ matchers -> matcher data = None) ->
        match_capabilities data = None -> caps = [])
    /\ ("progress2" ∈ caps <->
        (exists matcher group v,
           matcher ∈ matchers /\ matcher data = Some group
           /\ Version group = Ok v /\ ge v v31 = true)
        \/ (exists group,
              match_capabilities data = Some group
              /\ "progress2" ∈ capabilities group)).
Proof.
  intros Hdata H31 Hparse.
  destruct (progress2_parsed matchers data v31 H31 Hparse) as (p & Hp & Hiff).
  unfold rsyncCaps. rewrite Hdata, Hp.
  destruct (match_capabilities data) as [group|] eqn:Hcaps.
  - eexists. split; [done|]. split.
    + intros _ ?. done.
    + rewrite elem_of_app. destruct p.
      * split; [|intros _; left; by left].
        intros _. left. by apply Hiff.
      * split.
        -- intros [[]%elem_of_nil|Hin]. right. by exists group.
        -- intros [H|(g & [= <-] & Hin)]; [|by right].
           apply Hiff in H. done.
  - eexists. split; [done|]. split.
    + intros Hnone _. destruct p; [|done].
      destruct (proj1 Hiff eq_refl) as (m & g & _ & Hm & Hg & _).
      by rewrite (Hnone m Hm) in Hg.
    + destruct p.
      * split; [|intros _; by left]. intros _. left. by apply Hiff.
      * split; [by intros []%elem_of_nil|].
        intros [H|(g & [=] & _)]. by apply Hiff in H.
Qed.
End RsyncCaps.

Section Execute.
Variable U : Type.
Variable callback : option (string -> U -> Result U).
Variable filters : list (string -> string).
Variable main_thread : bool.
Variable spawn : Result Popen.

Ltac run_M :=
  cbv [mbind mret M_bind M_ret get raise set_currentProc set_user_data].

Lemma install_handlers (st : State U) :
  exists st',
    except_ValueError_pass U
      (signal U main_thread SIGTSTP slot_pause;;
       signal U main_thread SIGCONT slot_resume;;
       signal U main_thread SIGHUP slot_kill) st = (Ok tt, st')
    /\ currentProc U st' = currentProc U st
    /\ pausable U st' = pausable U st
    /\ user_data U st' = user_data U st
    /\ forall s, handlers U st' s
                 = if main_thread then installed s else handlers U st s.
Proof.
  unfold except_ValueError_pass, signal. run_M.
  destruct main_thread; eexists; (split; [reflexivity|]); cbn; repeat split.
  intros []; reflexivity.
Qed.

Lemma restore_handlers (st : State U) :
  exists st',
    except_ValueError_pass U
      (signal U main_thread SIGTSTP SIG_DFL;;
       signal U main_thread SIGCONT SIG_DFL;;
       signal U main_thread SIGHUP SIG_DFL) st = (Ok tt, st')
    /\ currentProc U st' = currentProc U st
    /\ forall s, handlers U st' s
                 = if main_thread then SIG_DFL else handlers U st s.
Proof.
  unfold except_ValueError_pass, signal. run_M.
  destruct main_thread; eexists; (split; [reflexivity|]); cbn; repeat split.
  intros []; reflexivity.
Qed.

Lemma on_line_handlers cb line (st : State U) :
  handlers U (snd (on_line U filters cb line st)) = handlers U st.
Proof.
  unfold on_line. destruct (Py.is_empty _); [done|]. run_M.
  by destruct (cb _ _).
Qed.

Lemma for_lines_handlers cb lines : forall st : State U,
  handlers U (snd (for_lines U filters cb lines st)) = handlers U st.
Proof.
  induction lines as [|line lines IH]; intros st; [done|].
  cbn [for_lines]. unfold mbind, M_bind.
  pose proof (on_line_handlers cb line st) as H.
  destruct (on_line U filters cb line st) as [[[]|e] st1]; cbn [snd] in *.
  - by rewrite IH.
  - done.
Qed.

Lemma communicate_handlers (st : State U) :
  handlers U (snd (communicate U st)) = handlers U st.
Proof. unfold communicate. run_M. by destruct (currentProc U st). Qed.

Lemma bind_Ok {A B} (m : M U A) (k : A -> M U B) st a st' :
  m st = (Ok a, st') -> (m ≫= k) st = k a st'.
Proof. intros H. unfold mbind, M_bind. by rewrite H. Qed.

Lemma bind_Raise {A B} (m : M U A) (k : A -> M U B) st e st' :
  m st = (Raise e, st') -> (m ≫= k) st = (Raise e, st').
Proof. intros H. unfold mbind, M_bind. by rewrite H. Qed.

(** C7, as amended.  When [run] returns in the main thread, the three
    signals are back at their default handling.  When [run] raises, because
    the child cannot be started or because the callback raises, the three
    slots installed before are still in place: there is no cleanup on that
    path.  Outside the main thread [run] neither installs nor restores
    anything. *)
Theorem run_handlers_at_exit (st : State U) :
  let r := run U callback filters main_thread spawn st in
  (forall ret, fst r = Ok ret ->
     forall s, handlers U (snd r) s
               = if main_thread then SIG_DFL else handlers U st s)
  /\ (forall e, fst r = Raise e ->
        forall s, handlers U (snd r) s
                  = if main_thread then installed s else handlers U st s).
Proof.
  cbv zeta. unfold run.
  destruct (install_handlers st) as (st1 & Hinstall & _ & _ & _ & H1).
  rewrite (bind_Ok _ _ _ _ _ Hinstall).
  destruct spawn as [proc|e0].
  2: { split; [done|]. intros e _ s. apply H1. }
  rewrite (bind_Ok (set_currentProc U (Some proc)) _ st1 tt _ eq_refl).
  set (st2 := mkState U _ _ _ _).
  assert (forall s, handlers U st2 s = handlers U st1 s) as H2 by done.
  set (loop := match callback with Some cb => _ | None => _ end).
  assert (handlers U (snd (loop st2)) = handlers U st2) as H3.
  { subst loop. destruct callback; [apply for_lines_handlers | done]. }
  destruct (loop st2) as [[[]|e1] st3] eqn:Hloop; cbn [snd] in H3.
  2: { rewrite (bind_Raise _ _ _ _ _ Hloop). split; [done|].
       intros e _ s. cbn [snd]. rewrite H3, H2. apply H1. }
  rewrite (bind_Ok _ _ _ _ _ Hloop).
  pose proof (communicate_handlers st3) as H4.
  destruct (communicate U st3) as [[ret|e2] st4] eqn:Hcomm; cbn [snd] in H4.
  2: { rewrite (bind_Raise _ _ _ _ _ Hcomm). split; [done|].
       intros e _ s. cbn [snd]. rewrite H4, H3, H2. apply H1. }
  rewrite (bind_Ok _ _ _ _ _ Hcomm).
  destruct (restore_handlers st4) as (st5 & Hrestore & _ & H5).
  rewrite (bind_Ok _ _ _ _ _ Hrestore). cbn [fst snd mret M_ret].
  split; [|done]. intros _ _ s. rewrite H5. destruct main_thread; [done|].
  by rewrite H4, H3, H2, H1.
Qed.

(** C8, as amended.  With the slots installed and a live child, the hangup
    signal kills the child when [pausable] is set.  When [pausable] is
    cleared none of the three signals reaches the child: the flag gates the
    kill as it gates stop and continue. *)
Theorem hangup_kills_when_pausable (st : State U) proc :
  handlers U st SIGHUP = slot_kill ->
  currentProc U st = Some proc ->
  alive proc = true ->
  (pausable U st = true ->
   deliver U SIGHUP st
   = (Ok tt,
      mkState U (handlers U st) (Some (killed proc)) true (user_data U st)))
  /\ (pausable U st = false ->
      forall signum,
        handlers U st signum = installed signum ->
        deliver U signum st = (Ok tt, st)).
Proof.
  intros Hh Hproc Halive. split.
  - intros Hp. unfold deliver. run_M. rewrite Hh. unfold kill. run_M.
    rewrite Hproc, Hp. unfold Popen_kill. rewrite Halive, Hp. reflexivity.
  - intros Hp signum Hs. unfold deliver. run_M. rewrite Hs.
    destruct signum; cbn [installed]; unfold pause, resume, kill; run_M;
      by rewrite Hproc, Hp.
Qed.
End Execute.

(** C8 as stated fails: with [pausable] cleared, a hangup leaves the live
    child as it is. *)
Lemma hangup_ignored_when_not_pausable :
  let st := mkState unit installed (Some Example.a_child) false tt in
  handlers unit st SIGHUP = slot_kill
  /\ alive Example.a_child = true
  /\ currentProc unit (snd (deliver unit SIGHUP st)) = Some Example.a_child.
Proof. by vm_compute. Qed.

(** C7 as stated fails: when the child cannot be started, [run] raises and
    the hangup signal is still bound to the slot [kill]. *)
Lemma run_leaves_handlers_when_spawn_raises :
  let st := mkState unit (fun _ => SIG_DFL) None true tt in
  let r := run unit None [] true (Raise OSError) st in
  fst r = Raise OSError
  /\ handlers unit (snd r) SIGHUP = slot_kill
  /\ handlers unit (snd r) SIGHUP <> SIG_DFL.
Proof. vm_compute. repeat split. discriminate. Qed.

(** C9 as stated fails: a text that matches neither version pattern but
    lists [progress2] among its capabilities yields [progress2]. *)
Lemma progress2_from_capability_list :
  match_version Example.listed_progress2 = None
  /\ match_version_v Example.listed_progress2 = None
  /\ rsyncCaps (list nat) ReleaseVersion release_ge (Raise OSError)
       (Some Example.listed_progress2) = Ok ["progress2"].
Proof. by vm_compute. Qed.

(** The second dot of the pattern [v(\d\.\d.\d)] stands for any character:
    a group such as [3.1x2] reaches [Version], and what [Version] raises
    on it leaves [rsyncCaps]. *)
Lemma rsyncCaps_group_not_a_version V Version ge rsync_version e :
  Version "3.1x2" = Raise e ->
  rsyncCaps V Version ge rsync_version
    (Some "rsync  version v3.1x2  protocol version 31") = Raise e.
Proof.
  intros H.
  assert (match_version "rsync  version v3.1x2  protocol version 31" = None)
    as H1 by (vm_compute; reflexivity).
  assert (match_version_v "rsync  version v3.1x2  protocol version 31"
          = Some "3.1x2") as H2 by (vm_compute; reflexivity).
  unfold rsyncCaps, matchers. cbn [progress2 Py.is_empty].
  by rewrite H1, H2, H.
Qed.

Lemma rsyncCaps_parsed_witness :
  exists caps,
    rsyncCaps (list nat) ReleaseVersion release_ge (Raise OSError)
      (Some Example.rsync_3_1_0) = Ok caps
    /\ "progress2" ∈ caps.
Proof.
  destruct (rsyncCaps_parsed (list nat) ReleaseVersion release_ge
              (Raise OSError) Example.rsync_3_1_0 [3; 1]%nat)
    as (caps & Hcaps & _ & Hiff).
  - vm_compute; reflexivity.
  - vm_compute; reflexivity.
  - intros matcher group Hm Hg. exists [3; 1]%nat.
    apply elem_of_cons in Hm as [-> | Hm].
    + vm_compute in Hg. injection Hg as <-. vm_compute; reflexivity.
    + apply list_elem_of_singleton in Hm as ->. vm_compute in Hg. discriminate.
  - exists caps. split; [exact Hcaps|]. apply Hiff. left.
    exists match_version, "3.1", [3; 1]%nat.
    split; [by left|]. repeat split; vm_compute; reflexivity.
Defined.

Lemma run_handlers_at_exit_witness :
  let st := mkState unit (fun _ => SIG_DFL) None true tt in
  let r := run unit (Some (fun _ u => Ok u)) [] true (Ok Example.a_child) st in
  handlers unit (snd r) SIGTSTP = SIG_DFL
  /\ handlers unit (snd r) SIGCONT = SIG_DFL
  /\ handlers unit (snd r) SIGHUP = SIG_DFL.
Proof.
  pose proof
    (proj1 (run_handlers_at_exit unit (Some (fun _ u => Ok u)) [] true
              (Ok Example.a_child)
              (mkState unit (fun _ => SIG_DFL) None true tt)) 0) as H.
  cbv zeta in H |- *.
  repeat split; apply H; vm_compute; reflexivity.
Defined.

Lemma hangup_kills_when_pausable_witness :
  let st := mkState unit installed (Some Example.a_child) true tt in
  deliver unit SIGHUP st
  = (Ok tt, mkState unit installed (Some (killed Example.a_child)) true tt).
Proof.
  apply (proj1 (hangup_kills_when_pausable unit
                  (mkState unit installed (Some Example.a_child) true tt)
                  Example.a_child
                  eq_refl eq_refl eq_refl)).
  reflexivity.
Defined.
End ToolsFacts.

(** ** The service: what a sequence of calls can do *)

Module ServiceCallsFacts.
Import ServiceHelper ServiceHelperFacts ServiceCalls.

Section Calls.
Variables su backintime nice ionice : string.
Variable recursion_limit : nat.

Local Abbreviation after := (ServiceCalls.after su backintime nice ionice recursion_limit).
Local Abbreviation within_limits := (ServiceCalls.within_limits su backintime nice ionice).
Local Abbreviation validated_rule := (ServiceCalls.validated_rule su backintime nice ionice).
Local Abbreviation after_all := (ServiceCalls.after_all su backintime nice ionice recursion_limit).

Lemma within_limits_cleaned owner w :
  within_limits w -> within_limits (cleaned owner w).
Proof.
  intros [Hsize Hall]. split.
  - unfold cleaned. cbn [tmpDict].
    rewrite map_size_delete. destruct (tmpDict w !! owner); simpl; lia.
  - intros o rules. unfold cleaned. cbn [tmpDict].
    intros [_ Ho]%lookup_delete_Some. by apply (Hall o).
Qed.

Lemma within_limits_with_fs f w :
  within_limits w -> within_limits (with_fs f w).
Proof. done. Qed.

Lemma within_limits_delete polkit sender conn w :
  within_limits w ->
  within_limits (snd (delete_ recursion_limit polkit sender conn w)).
Proof.
  intros Hw. rewrite delete_unfold.
  repeat case_match; cbn [snd];
    auto using within_limits_cleaned, within_limits_with_fs.
Qed.

Lemma within_limits_save polkit sender conn w :
  within_limits w ->
  within_limits (snd (save recursion_limit polkit sender conn w)).
Proof.
  intros Hw. rewrite save_unfold.
  pose proof (within_limits_delete polkit sender conn w Hw) as Hd.
  destruct (tmpDict w !! _) as [[|rule rules]|].
  1, 3: by destruct (delete_ recursion_limit polkit sender conn w) as [[[]|e] w'].
  repeat case_match; cbn [snd];
    auto using within_limits_cleaned, within_limits_with_fs.
Qed.

Lemma after_within_limits call sender conn w :
  within_limits w -> within_limits (after call sender conn w).
Proof.
  intros Hw. destruct call as [cmd uuid|polkit|polkit|]; cbn [ServiceCalls.after].
  - rewrite addRule_unfold.
    destruct (validate backintime nice ionice cmd uuid) as [[]|e] eqn:Hv; [|done].
    destruct (Nat.leb_spec max_rules
                (length (default [] (tmpDict w !! GetNameOwner conn sender))))
      as [|Hrules]; [done|].
    destruct (Nat.leb_spec max_users (size (tmpDict w))) as [|Husers]; [done|].
    destruct (Nat.ltb_spec max_cmd_len (String.length cmd)) as [|Hlen]; [done|].
    cbn [snd]. destruct Hw as [Hsize Hall]. split; cbn [tmpDict].
    + destruct (tmpDict w !! GetNameOwner conn sender) eqn:Ho.
      * rewrite map_size_insert_Some by (by eexists). lia.
      * rewrite map_size_insert_None by done. lia.
    + intros o rules [[<- <-] | [_ Ho]]%lookup_insert_Some; [|by apply (Hall o)].
      split; [by destruct (default _ _)|].
      split; [rewrite length_app; simpl; lia|].
      apply Forall_app. split.
      * destruct (tmpDict w !! _) as [staged|] eqn:Hs; [|done].
        by apply (Hall _ _ Hs).
      * apply Forall_singleton.
        by exists cmd, uuid, (GetConnectionUnixUser conn sender).
  - by apply within_limits_save.
  - by apply within_limits_delete.
  - unfold clean. rewrite _clean_unfold. by apply within_limits_cleaned.
Qed.

(** X1. Whatever calls are made on the service after its start, by
    whichever senders and with whatever answers of polkit, what is staged
    stays within the limits: at most [max_users] owners have rules staged,
    each of them at least one and at most [max_rules], and every staged
    rule is the text [addRule] builds from a command and a UUID that pass
    the validation, the command no longer than [max_cmd_len]. *)
Theorem staged_rules_within_limits files calls :
  let w := after_all calls (started files) in
  (size (tmpDict w) <= max_users)%nat
  /\ forall owner rules,
       tmpDict w !! owner = Some rules ->
       rules <> [] /\ (length rules <= max_rules)%nat
       /\ Forall validated_rule rules.
Proof.
  cbv zeta. change (within_limits (after_all calls (started files))).
  unfold ServiceCalls.after_all.
  induction calls as [|[[call sender] conn] calls IH] using rev_ind.
  - split; [cbn; rewrite map_size_empty; unfold max_users; lia|].
    intros o rules. cbn [foldl started tmpDict]. by rewrite lookup_empty.
  - rewrite foldl_app. cbn [foldl]. by apply after_within_limits.
Qed.


Local Abbreviation check := (_checkPolkitPrivilege recursion_limit).
Local Abbreviation save := (ServiceHelper.save recursion_limit).
Local Abbreviation delete_ := (ServiceHelper.delete_ recursion_limit).
Local Abbreviation prefix_token := (ServiceCalls.prefix_token nice ionice).

(** *** What [_validateCmd] accepts *)

Lemma pop_switches_split switches parts :
  exists popped,
    parts = (popped ++ pop_switches switches parts)%list
    /\ Forall (fun part => switches part = true) popped.
Proof.
  induction parts as [|part parts (popped & Heq & Hall)]; [by exists []|].
  cbn [pop_switches]. destruct (switches part) eqn:Hs.
  - exists (part :: popped). split; [cbn; by f_equal | by constructor].
  - by exists [].
Qed.

Lemma whitelisted_Some part switches :
  whitelisted (whitelist nice ionice) part = Some switches ->
  (part = nice /\ switches = nice_switches)
  \/ (part = ionice /\ switches = ionice_switches).
Proof.
  unfold whitelist. cbn [whitelisted].
  repeat case_decide; intros [= <-]; auto.
Qed.

Lemma pop_whitelisted_split parts :
  exists popped,
    parts = (popped ++ pop_whitelisted nice ionice parts)%list
    /\ Forall prefix_token popped.
Proof.
  funelim (pop_whitelisted nice ionice parts).
  - by exists [].
  - destruct H as (popped & Hpop & Hall).
    destruct (pop_switches_split switches parts') as (sw & Hsw & Hswall).
    exists (part :: sw ++ popped)%list. split.
    + cbn. f_equal. rewrite <- app_assoc, <- Hpop. exact Hsw.
    + apply whitelisted_Some in Heq as [[-> ->] | [-> ->]].
      * constructor; [by left|]. apply Forall_app. split; [|done].
        eapply Forall_impl; [exact Hswall|]. intros t Ht. right. right. by left.
      * constructor; [right; by left|]. apply Forall_app. split; [|done].
        eapply Forall_impl; [exact Hswall|]. intros t Ht. do 3 right. done.
  - by exists [].
Qed.

(** X2. A command that passes the validation starts with [/], holds no
    [&&], and among its words, split at white space, stands the path of
    [backintime], with nothing before it but [nice], [ionice] and the
    switches their patterns match. *)
Theorem accepted_command_shape cmd uuid :
  validate backintime nice ionice cmd uuid = Ok tt ->
  Py.startswith "/" cmd = true
  /\ Py.find "&&" cmd = -1
  /\ exists popped rest,
       Py.split cmd = (popped ++ backintime :: rest)%list
       /\ Forall prefix_token popped.
Proof.
  unfold validate. do 2 (case_match; [discriminate|]).
  unfold _validateCmd.
  destruct (decide (Py.find "&&" cmd ≠ -1)) as [|Hfind]; [discriminate|].
  destruct (Py.startswith "/" cmd) eqn:Hstart; [|discriminate]. cbn [negb].
  destruct (pop_whitelisted_split (Py.split cmd)) as (popped & Heq & Hall).
  destruct (pop_whitelisted nice ionice (Py.split cmd)) as [|part rest];
    [discriminate|].
  destruct (decide (part ≠ backintime)) as [|Hpart]; [discriminate|].
  intros _. split; [done|]. split; [by apply dec_stable|].
  exists popped, rest. apply dec_stable in Hpart. by subst.
Qed.

Lemma forallb_elem_of (class : ascii -> bool) (l : list ascii) :
  forallb class l = true -> forall c, c ∈ l -> class c = true.
Proof.
  intros H c Hc. apply list_elem_of_In in Hc.
  by apply (proj1 (forallb_forall class l) H).
Qed.

(** X3. In a command and a UUID that pass the validation every character
    is of the class the validation names: none of the shell's quotes,
    separators, substitutions and globs is in the command, no double quote
    and no line end in either, so both stay inside the quoted fields of the
    rule. *)
Theorem accepted_strings_are_plain cmd uuid :
  validate backintime nice ionice cmd uuid = Ok tt ->
  (forall c, c ∈ list_ascii_of_string cmd -> cmd_char c = true)
  /\ (forall c, c ∈ list_ascii_of_string uuid -> uuid_char c = true)
  /\ (forall c, c ∈ list_ascii_of_string "'\;|$`()<*?~#!{}[]=" ->
        c ∉ list_ascii_of_string cmd)
  /\ (Py.DQUOTE ∉ list_ascii_of_string cmd)
  /\ (Py.DQUOTE ∉ list_ascii_of_string uuid)
  /\ no_line_end cmd = true /\ no_line_end uuid = true.
Proof.
  intros Hv. pose proof (validate_no_line_end _ _ _ _ _ Hv) as [Hlc Hlu].
  revert Hv. unfold validate.
  case_bool_decide as Hc; cbn [negb]; [|discriminate].
  case_bool_decide as Hu; cbn [negb]; [|discriminate].
  intros _.
  pose proof (forallb_elem_of _ _ (findall_nil_forallb _ _ Hc)) as Hcmd.
  pose proof (forallb_elem_of _ _ (findall_nil_forallb _ _ Hu)) as Huuid.
  repeat split; try done.
  - intros c Hbad Hin. apply Hcmd in Hin.
    set_unfold in Hbad. 
    repeat (destruct Hbad as [-> | Hbad]; [by vm_compute in Hin|]). done.
  - intros Hin. apply Hcmd in Hin. by vm_compute in Hin.
  - intros Hin. apply Huuid in Hin. by vm_compute in Hin.
Qed.

(** *** What a call leaves alone *)

Lemma after_addRule_frame cmd uuid sender conn w :
  let w' := snd (addRule su backintime nice ionice cmd uuid sender conn w) in
  enforce_polkit w' = enforce_polkit w /\ fs w' = fs w
  /\ fs_log w' = fs_log w
  /\ forall o, o <> GetNameOwner conn sender ->
       tmpDict w' !! o = tmpDict w !! o.
Proof.
  cbv zeta. rewrite addRule_unfold. repeat case_match; cbn; repeat split; try done.
  intros o Ho. by apply lookup_insert_ne.
Qed.

Lemma after_delete_frame polkit sender conn w :
  let w' := snd (delete_ polkit sender conn w) in
  enforce_polkit w' = enforce_polkit w
  /\ (forall o, o <> GetNameOwner conn sender ->
        tmpDict w' !! o = tmpDict w !! o)
  /\ (forall p, p <> UDEV_RULES_PATH (GetConnectionUnixUser conn sender) ->
        fs w' !! p = fs w !! p).
Proof.
  cbv zeta. rewrite delete_unfold.
  assert (forall o, o <> GetNameOwner conn sender ->
            delete (GetNameOwner conn sender) (tmpDict w) !! o = tmpDict w !! o).
  { intros o Ho. by apply lookup_delete_ne. }
  repeat case_match; cbn; repeat split; try done.
  intros p Hp. by apply lookup_delete_ne.
Qed.

Lemma after_save_frame polkit sender conn w :
  let w' := snd (save polkit sender conn w) in
  enforce_polkit w' = enforce_polkit w
  /\ (forall o, o <> GetNameOwner conn sender ->
        tmpDict w' !! o = tmpDict w !! o)
  /\ (forall p, p <> UDEV_RULES_PATH (GetConnectionUnixUser conn sender) ->
        fs w' !! p = fs w !! p).
Proof.
  cbv zeta. rewrite save_unfold.
  pose proof (after_delete_frame polkit sender conn w) as Hd. cbv zeta in Hd.
  assert (forall o, o <> GetNameOwner conn sender ->
            delete (GetNameOwner conn sender) (tmpDict w) !! o = tmpDict w !! o).
  { intros o Ho. by apply lookup_delete_ne. }
  destruct (tmpDict w !! _) as [[|rule rules]|].
  1, 3: by destruct (delete_ polkit sender conn w) as [[[]|e] w'].
  repeat case_match; cbn; repeat split; try done.
  all: intros p Hp; etrans; by apply lookup_insert_ne.
Qed.

(** X4. A call, whether it returns or raises, leaves the polkit switch as it
    was, touches the staged rules of no owner but the caller's, and no file
    but the rule file of the caller's user. *)
Theorem calls_touch_only_the_caller call sender conn w :
  let w' := after call sender conn w in
  enforce_polkit w' = enforce_polkit w
  /\ (forall o, o <> GetNameOwner conn sender ->
        tmpDict w' !! o = tmpDict w !! o)
  /\ (forall p, p <> UDEV_RULES_PATH (GetConnectionUnixUser conn sender) ->
        fs w' !! p = fs w !! p).
Proof.
  destruct call as [cmd uuid|polkit|polkit|]; cbn [ServiceCalls.after].
  - destruct (after_addRule_frame cmd uuid sender conn w) as (He & Hfs & _ & Ho).
    cbv zeta. by rewrite Hfs.
  - apply after_save_frame.
  - apply after_delete_frame.
  - cbv zeta. unfold clean. rewrite _clean_unfold. cbn. repeat split.
    intros o Ho. by apply lookup_delete_ne.
Qed.

(** *** Authorization *)

Lemma check_returns_granted polkit sender conn privilege w w' :
  enforce_polkit w = true ->
  check polkit (Some sender) conn privilege w = (Ok tt, w') ->
  exists n, polkit (Some sender) privilege n = Reply true.
Proof. apply check_from_returns. Qed.

Lemma delete_changes_files_when_granted polkit sender conn w :
  enforce_polkit w = true ->
  (fs (snd (delete_ polkit sender conn w)) = fs w
   /\ fs_log (snd (delete_ polkit sender conn w)) = fs_log w)
  \/ exists n, polkit (Some sender) UdevRuleDelete n = Reply true.
Proof.
  intros He. rewrite delete_unfold.
  destruct (fs w !! _); [|by left].
  destruct (check _ _ _ _ _) as [[[]|e] w1] eqn:Hc; [|by left].
  right. by eapply (check_returns_granted _ _ _ _ (cleaned _ w)).
Qed.

(** X6. While polkit is enforced, a call changes the files, or writes at
    all, only if polkit granted its sender the privilege to save or the
    privilege to delete at some attempt of that call; [addRule] and [clean]
    never do. *)
Theorem files_change_only_when_granted call sender conn w :
  enforce_polkit w = true ->
  (fs (after call sender conn w) = fs w
   /\ fs_log (after call sender conn w) = fs_log w)
  \/ granted call sender UdevRuleSave
  \/ granted call sender UdevRuleDelete.
Proof.
  intros He. destruct call as [cmd uuid|polkit|polkit|];
    cbn [ServiceCalls.after granted].
  - left. by destruct (after_addRule_frame cmd uuid sender conn w) as (_ & ? & ? & _).
  - rewrite save_unfold.
    pose proof (delete_changes_files_when_granted polkit sender conn w He) as Hd.
    destruct (tmpDict w !! _) as [[|rule rules]|].
    1, 3: destruct (delete_ polkit sender conn w) as [[[]|e] w'];
          destruct Hd as [Hd|Hd]; auto.
    destruct (match fs w !! _ with Some _ => _ | None => _ end); [by left|].
    destruct (check _ _ _ _ _) as [[[]|e] w1] eqn:Hc; [|by left].
    right. left. by eapply check_returns_granted.
  - destruct (delete_changes_files_when_granted polkit sender conn w He); auto.
  - left. unfold clean. by rewrite _clean_unfold.
Qed.

(** X5. After [clean] and after [delete], also when [delete] raises, the
    caller has nothing staged; so it is after a [save] that returns.  A
    [save] of staged rules that raises leaves the service as it was, the
    rules still staged. *)
Theorem staged_rules_cleared sender conn w :
  let owner := GetNameOwner conn sender in
  tmpDict (after CallClean sender conn w) !! owner = None
  /\ (forall polkit,
        tmpDict (after (CallDelete polkit) sender conn w) !! owner = None)
  /\ (forall polkit b w',
        save polkit sender conn w = (Ok b, w') ->
        tmpDict w' !! owner = None)
  /\ (forall polkit e w',
        save polkit sender conn w = (Raise e, w') ->
        staged_by w owner <> [] -> w' = w).
Proof.
  cbv zeta. split; [|split; [|split]].
  - cbn [ServiceCalls.after]. unfold clean. rewrite _clean_unfold.
    apply lookup_delete_eq.
  - intros polkit. cbn [ServiceCalls.after]. rewrite delete_unfold.
    repeat case_match; apply lookup_delete_eq.
  - intros polkit b w'. apply save_returns_unstaged.
  - intros polkit e w'. rewrite save_unfold. unfold staged_by.
    destruct (tmpDict w !! _) as [[|rule rules]|]; [done| |done].
    intros Hsave _. repeat (case_match; try discriminate).
    all: by injection Hsave as _ <-.
Qed.

Lemma delete_returns_or_keeps polkit sender conn w r w' :
  let path := UDEV_RULES_PATH (GetConnectionUnixUser conn sender) in
  delete_ polkit sender conn w = (r, w') ->
  match r with
  | Ok _ => fs w' !! path = None
  | Raise _ => is_Some (fs w !! path) /\ fs w' = fs w /\ fs_log w' = fs_log w
  end.
Proof.
  cbv zeta. rewrite delete_unfold.
  destruct (fs w !! _) as [content|] eqn:Hf.
  - destruct (check _ _ _ _ _) as [[[]|e] w1]; intros [= <- <-]; cbn.
    + apply lookup_delete_eq.
    + by repeat split.
  - by intros [= <- <-].
Qed.

(** X7. When [delete] returns, the rule file of the caller's user does not
    exist; when it raises, that file exists and no file was touched. *)
Theorem delete_outcome polkit sender conn w :
  let path := UDEV_RULES_PATH (GetConnectionUnixUser conn sender) in
  let r := delete_ polkit sender conn w in
  match fst r with
  | Ok _ => fs (snd r) !! path = None
  | Raise _ =>
      is_Some (fs w !! path)
      /\ fs (snd r) = fs w /\ fs_log (snd r) = fs_log w
  end.
Proof.
  cbv zeta. destruct (delete_ polkit sender conn w) as [r w'] eqn:Hdelete.
  exact (delete_returns_or_keeps _ _ _ _ _ _ Hdelete).
Qed.

(** X8. With nothing staged for the caller and no rule file of its user,
    [save] returns [False] and [delete] returns, both without a change and
    whatever polkit would answer: it is not asked. *)
Theorem nothing_to_do_asks_nothing polkit sender conn w :
  tmpDict w !! GetNameOwner conn sender = None ->
  fs w !! UDEV_RULES_PATH (GetConnectionUnixUser conn sender) = None ->
  save polkit sender conn w = (Ok false, w)
  /\ delete_ polkit sender conn w = (Ok tt, w).
Proof.
  intros Hs Hf.
  assert (delete_ polkit sender conn w = (Ok tt, w)) as Hd.
  { by rewrite delete_unfold, Hf, cleaned_unstaged. }
  split; [|done]. by rewrite save_unfold, Hs, Hd.
Qed.

(** X9. Rules that were saved are not written again: once a [save] of the
    staged rules returned [True], a later [save] that finds the same rules
    staged and the file as that one left it returns [False], drops what is
    staged and touches no file, whatever polkit would answer. *)
Theorem saved_rules_are_not_saved_again polkit polkit' sender conn w rules w1 w2 :
  let owner := GetNameOwner conn sender in
  let path := UDEV_RULES_PATH (GetConnectionUnixUser conn sender) in
  no_line_end su = true ->
  reachable su backintime nice ionice recursion_limit w ->
  tmpDict w !! owner = Some rules ->
  save polkit sender conn w = (Ok true, w1) ->
  fs w2 !! path = fs w1 !! path ->
  tmpDict w2 !! owner = Some rules ->
  save polkit' sender conn w2 = (Ok false, cleaned owner w2).
Proof.
  intros owner path Hsu Hw%reachable_staged_lines Hrules Hsave Hfs Hrules2;
    [|done].
  assert (Forall is_line rules) as Hlines by by apply (Hw owner).
  assert (fs w1 !! path = Some (Py.join rules) /\ rules <> []) as [Hf1 Hne].
  { revert Hsave. rewrite save_unfold. fold owner path. rewrite Hrules.
    destruct rules as [|rule rules].
    - by destruct (delete_ polkit sender conn w) as [[[]|e] w''].
    - intros Hsave. split; [|done].
      repeat (case_match; try discriminate); injection Hsave as <-;
        unfold cleaned, with_fs; cbn [fs]; apply lookup_insert_eq. }
  rewrite save_unfold. fold owner path. rewrite Hrules2, Hfs, Hf1.
  destruct rules as [|rule rules]; [done|].
  by rewrite readlines_join, bool_decide_true.
Qed.

Lemma check_from_follows depth : forall k attempt polkit sender conn privilege w,
  enforce_polkit w = true ->
  (k < depth)%nat ->
  (forall i, (i < k)%nat ->
     polkit (Some sender) privilege (attempt + i)%nat = Error ServiceUnknown) ->
  polkit (Some sender) privilege (attempt + k)%nat <> Error ServiceUnknown ->
  _checkPolkitPrivilege_from depth attempt polkit (Some sender) conn privilege w
  = (match polkit (Some sender) privilege (attempt + k)%nat with
     | Reply true => Ok tt
     | Reply false => Raise (PermissionDeniedByPolicy privilege)
     | Error name => Raise (DBusException name)
     end, w).
Proof.
  induction depth as [|depth IH]; intros k attempt polkit sender conn privilege w
    He Hk Hretry Hanswer; [lia|].
  cbn [_checkPolkitPrivilege_from is_Some_b negb andb].
  cbv [mbind mret M_bind M_ret get raise]. rewrite He. cbn [negb].
  destruct k as [|k].
  - rewrite Nat.add_0_r in *.
    destruct (polkit (Some sender) privilege attempt) as [[]|name]; [done|done|].
    destruct (decide (name = ServiceUnknown)) as [->|]; [done|done].
  - pose proof (Hretry 0%nat ltac:(lia)) as H0. rewrite Nat.add_0_r in H0.
    rewrite H0, decide_True by done.
    replace (attempt + S k)%nat with (S attempt + k)%nat in * by lia.
    apply IH; [done|lia| |done].
    intros i Hi. replace (S attempt + i)%nat with (attempt + S i)%nat by lia.
    apply Hretry. lia.
Qed.

Lemma check_from_exhausted depth : forall attempt polkit sender conn privilege w,
  enforce_polkit w = true ->
  (forall i, (i < depth)%nat ->
     polkit (Some sender) privilege (attempt + i)%nat = Error ServiceUnknown) ->
  _checkPolkitPrivilege_from depth attempt polkit (Some sender) conn privilege w
  = (Raise RecursionError, w).
Proof.
  induction depth as [|depth IH]; intros attempt polkit sender conn privilege w
    He Hretry; [done|].
  cbn [_checkPolkitPrivilege_from is_Some_b negb andb].
  cbv [mbind mret M_bind M_ret get raise]. rewrite He. cbn [negb].
  pose proof (Hretry 0%nat ltac:(lia)) as H0. rewrite Nat.add_0_r in H0.
  rewrite H0, decide_True by done. apply IH; [done|].
  intros i Hi. replace (S attempt + i)%nat with (attempt + S i)%nat by lia.
  apply Hretry. lia.
Qed.

(** X10. The polkit check asks again as long as the answer is that the
    service is unknown: the first other answer decides (granted returns,
    denied raises [PermissionDeniedByPolicy], any other error is raised as
    it is), provided it comes before the recursion limit; with that many
    unknown answers the check ends in [RecursionError].  The service is
    unchanged in each case. *)
Theorem check_follows_first_answer polkit sender conn privilege w k :
  enforce_polkit w = true ->
  (forall i, (i < k)%nat ->
     polkit (Some sender) privilege i = Error ServiceUnknown) ->
  ((k < recursion_limit)%nat ->
   polkit (Some sender) privilege k <> Error ServiceUnknown ->
   check polkit (Some sender) conn privilege w
   = (match polkit (Some sender) privilege k with
      | Reply true => Ok tt
      | Reply false => Raise (PermissionDeniedByPolicy privilege)
      | Error name => Raise (DBusException name)
      end, w))
  /\ ((recursion_limit <= k)%nat ->
      check polkit (Some sender) conn privilege w = (Raise RecursionError, w)).
Proof.
  intros He Hretry. split.
  - intros Hk Hanswer. unfold _checkPolkitPrivilege.
    by apply (check_from_follows recursion_limit k 0).
  - intros Hk. unfold _checkPolkitPrivilege.
    apply check_from_exhausted; [done|]. intros i Hi. apply Hretry. lia.
Qed.
End Calls.

Lemma accepted_command_shape_witness :
  Py.startswith "/" Example.backup_cmd = true
  /\ Py.find "&&" Example.backup_cmd = -1
  /\ exists popped rest,
       Py.split Example.backup_cmd
       = (popped ++ Example.backintime :: rest)%list
       /\ Forall (prefix_token Example.nice Example.ionice) popped.
Proof.
  apply (accepted_command_shape Example.backintime Example.nice
           Example.ionice Example.backup_cmd "1234-uuid").
  vm_compute; reflexivity.
Defined.

Lemma accepted_strings_are_plain_witness :
  (Py.DQUOTE ∉ list_ascii_of_string Example.backup_cmd)
  /\ no_line_end Example.backup_cmd = true.
Proof.
  destruct (accepted_strings_are_plain Example.backintime Example.nice
              Example.ionice Example.backup_cmd "1234-uuid")
    as (_ & _ & _ & Hquote & _ & Hline & _).
  - vm_compute; reflexivity.
  - split; [exact Hquote | exact Hline].
Defined.

Lemma files_change_only_when_granted_witness :
  let w' := after Example.su Example.backintime Example.nice Example.ionice
              1000 (CallSave Example.denying) Example.caller Example.bus
              Example.staged in
  (fs w' = fs Example.staged /\ fs_log w' = fs_log Example.staged)
  \/ granted (CallSave Example.denying) Example.caller UdevRuleSave
  \/ granted (CallSave Example.denying) Example.caller UdevRuleDelete.
Proof.
  apply (files_change_only_when_granted Example.su Example.backintime
           Example.nice Example.ionice 1000 (CallSave Example.denying)
           Example.caller Example.bus Example.staged).
  vm_compute; reflexivity.
Defined.

Lemma nothing_to_do_asks_nothing_witness :
  save 1000 Example.denying Example.caller Example.bus Example.start
  = (Ok false, Example.start)
  /\ delete_ 1000 Example.denying Example.caller Example.bus Example.start
     = (Ok tt, Example.start).
Proof.
  apply (nothing_to_do_asks_nothing 1000 Example.denying Example.caller
           Example.bus Example.start).
  - vm_compute; reflexivity.
  - vm_compute; reflexivity.
Defined.

Lemma saved_rules_are_not_saved_again_witness :
  let saved := snd (save 1000 Example.granting Example.caller Example.bus
                      Example.staged) in
  let again := snd (Example.add Example.backup_cmd "1234-uuid" saved) in
  save 1000 Example.denying Example.caller Example.bus again
  = (Ok false, cleaned Example.caller again).
Proof.
  apply (saved_rules_are_not_saved_again Example.su Example.backintime
           Example.nice Example.ionice 1000 Example.granting Example.denying
           Example.caller Example.bus Example.staged [Example.rule]
           (snd (save 1000 Example.granting Example.caller Example.bus
                   Example.staged))
           (snd (Example.add Example.backup_cmd "1234-uuid"
                   (snd (save 1000 Example.granting Example.caller
                           Example.bus Example.staged))))).
  - vm_compute; reflexivity.
  - apply reachable_addRule; [apply reachable_init | vm_compute; reflexivity].
  - vm_compute; reflexivity.
  - vm_compute; reflexivity.
  - vm_compute; reflexivity.
  - vm_compute; reflexivity.
Defined.

Lemma check_follows_first_answer_witness :
  let polkit : Polkit :=
    fun _ _ attempt =>
      match attempt with
      | O => Error ServiceUnknown
      | S _ => Reply true
      end in
  _checkPolkitPrivilege 1000 polkit (Some Example.caller) (Some Example.bus)
    UdevRuleSave Example.staged
  = (Ok tt, Example.staged).
Proof.
  cbv zeta.
  destruct (check_follows_first_answer 1000
              (fun _ _ attempt =>
                 match attempt with
                 | O => Error ServiceUnknown
                 | S _ => Reply true
                 end)
              Example.caller (Some Example.bus) UdevRuleSave
              Example.staged 1) as [Hfirst _].
  - vm_compute; reflexivity.
  - intros i Hi. destruct i; [reflexivity | lia].
  - apply Hfirst; [lia | discriminate].
Defined.

End ServiceCallsFacts.

(** ** [tools.py]: the lines of a run, and the capability tokens *)

Module StreamFacts.
Import Tools ToolsFacts Stream.

Section Run.
Variable U : Type.
Variable filters : list (string -> string).
Variable main_thread : bool.
Variable fails : string -> option Exception.
Variable gather : string -> U -> U.

Lemma on_line_unfold line (st : State U) :
  on_line U filters (callback_of fails gather) line st
  = if Py.is_empty (filtered filters line) then (Ok tt, st)
    else match fails (filtered filters line) with
         | Some e => (Raise e, st)
         | None =>
             (Ok tt, mkState U (handlers U st) (currentProc U st)
                       (pausable U st)
                       (gather (filtered filters line) (user_data U st)))
         end.
Proof.
  unfold on_line, callback_of. fold (filtered filters line).
  destruct (Py.is_empty _); [done|].
  cbv [mbind mret M_bind M_ret get raise set_user_data].
  by destruct (fails _).
Qed.

Lemma for_lines_gathers lines : forall st : State U,
  Forall (fun line => fails line = None) (delivered filters lines) ->
  for_lines U filters (callback_of fails gather) lines st
  = (Ok tt, mkState U (handlers U st) (currentProc U st) (pausable U st)
              (foldl (fun u line => gather line u) (user_data U st)
                     (delivered filters lines))).
Proof.
  induction lines as [|line lines IH]; intros st Hok.
  - cbn. by destruct st.
  - cbn [for_lines]. unfold delivered in *. cbn [map] in *.
    pose proof (on_line_unfold line st) as Hline.
    destruct (Py.is_empty (filtered filters line)) eqn:Hempty.
    + rewrite filter_cons_False in * by (by rewrite Hempty).
      rewrite (bind_Ok U _ _ _ _ _ Hline). by apply IH.
    + rewrite filter_cons_True in * by done.
      apply Forall_cons in Hok as [Hfine Hok]. rewrite Hfine in Hline.
      rewrite (bind_Ok U _ _ _ _ _ Hline). by rewrite IH.
Qed.

Lemma for_lines_raises lines : forall (st : State U) before line after e,
  delivered filters lines = (before ++ line :: after)%list ->
  Forall (fun line => fails line = None) before ->
  fails line = Some e ->
  for_lines U filters (callback_of fails gather) lines st
  = (Raise e, mkState U (handlers U st) (currentProc U st) (pausable U st)
                (foldl (fun u line => gather line u) (user_data U st) before)).
Proof.
  induction lines as [|l lines IH]; intros st before line after e Hd Hok Hfail.
  - by destruct before.
  - cbn [for_lines]. unfold delivered in *. cbn [map] in *.
    pose proof (on_line_unfold l st) as Hline.
    destruct (Py.is_empty (filtered filters l)) eqn:Hempty.
    + rewrite filter_cons_False in Hd by (by rewrite Hempty).
      rewrite (bind_Ok U _ _ _ _ _ Hline). by eapply IH.
    + rewrite filter_cons_True in Hd by done.
      destruct before as [|b before]; injection Hd as Hl Hd; subst.
      * rewrite Hfail in Hline.
        rewrite (bind_Raise U _ _ _ _ _ Hline). cbn. by destruct st.
      * apply Forall_cons in Hok as [Hfine Hok]. rewrite Hfine in Hline.
        rewrite (bind_Ok U _ _ _ _ _ Hline). by erewrite IH.
Qed.

Lemma install_unfold (st : State U) :
  except_ValueError_pass U
    (signal U main_thread SIGTSTP slot_pause;;
     signal U main_thread SIGCONT slot_resume;;
     signal U main_thread SIGHUP slot_kill) st
  = (Ok tt,
     if main_thread
     then mkState U
            (fun s => if decide (s = SIGHUP) then slot_kill
                      else if decide (s = SIGCONT) then slot_resume
                      else if decide (s = SIGTSTP) then slot_pause
                      else handlers U st s)
            (currentProc U st) (pausable U st) (user_data U st)
     else st).
Proof.
  unfold except_ValueError_pass, signal.
  cbv [mbind mret M_bind M_ret]. by destruct main_thread.
Qed.

(** X11. A run hands the callback the lines of the child in their order,
    each without the line feeds at its end and passed through the filters,
    the lines that are empty by then left out.  When the callback raises on
    none of them, the run returns the exit code of the child, which has
    ended by then, and the data is what the callback gathered over all of
    these lines.  When it raises on one, the run raises the same with the
    data gathered over the lines before it, and without waiting for the
    child. *)
Theorem run_hands_over_the_filtered_lines proc (st : State U) :
  let r := run U (Some (callback_of fails gather)) filters main_thread
             (Ok proc) st in
  let lines := delivered filters (stdout proc) in
  (Forall (fun line => fails line = None) lines ->
   fst r = Ok (exit_code proc)
   /\ user_data U (snd r)
      = foldl (fun u line => gather line u) (user_data U st) lines
   /\ currentProc U (snd r) = Some (ended proc)
   /\ pausable U (snd r) = pausable U st)
  /\ (forall before line after e,
        lines = (before ++ line :: after)%list ->
        Forall (fun line => fails line = None) before ->
        fails line = Some e ->
        fst r = Raise e
        /\ user_data U (snd r)
           = foldl (fun u line => gather line u) (user_data U st) before
        /\ currentProc U (snd r) = Some proc).
Proof.
  cbv zeta. unfold run.
  rewrite (bind_Ok U _ _ _ _ _ (install_unfold st)).
  set (st1 := if main_thread then _ else st).
  assert (user_data U st1 = user_data U st /\ pausable U st1 = pausable U st)
    as [Hu Hp] by (subst st1; by destruct main_thread).
  rewrite (bind_Ok U (set_currentProc U (Some proc)) _ st1 tt _ eq_refl).
  set (st2 := mkState U _ _ _ _). split.
  - intros Hok.
    rewrite (bind_Ok U _ _ _ _ _ (for_lines_gathers _ st2 Hok)).
    cbn [handlers currentProc pausable user_data].
    unfold communicate.
    cbv [mbind mret M_bind M_ret get raise set_currentProc except_ValueError_pass
         signal].
    cbn [handlers currentProc pausable user_data].
    destruct main_thread; cbn; by rewrite ?Hu, ?Hp.
  - intros before line after e Hd Hok Hfail.
    rewrite (bind_Raise U _ _ _ _ _ (for_lines_raises _ st2 _ _ _ _ Hd Hok Hfail)).
    cbn. by rewrite Hu.
Qed.

(** X12. With the three handlers installed and the pausable flag set, a
    child that is alive is stopped by the suspend signal, continued by the
    continue signal and killed by the hangup signal, in whichever state the
    signal finds it; on a child that has ended each of the three signals
    changes nothing. *)
Theorem signals_drive_the_child (h : Signum -> Handler) (u : U) (p : Popen) :
  (forall signum, h signum = installed signum) ->
  let with_child p := mkState U h (Some p) true u in
  let now stopped := mkPopen (stdout p) (exit_code p) true stopped in
  (alive p = true ->
   deliver U SIGTSTP (with_child p) = (Ok tt, with_child (now true))
   /\ deliver U SIGCONT (with_child p) = (Ok tt, with_child (now false))
   /\ deliver U SIGHUP (with_child p) = (Ok tt, with_child (killed p))
   /\ alive (killed p) = false)
  /\ (alive p = false ->
      forall signum, deliver U signum (with_child p) = (Ok tt, with_child p)).
Proof.
  intros Hh. cbv zeta.
  assert (forall signum,
            deliver U signum (mkState U h (Some p) true u)
            = (Ok tt,
               mkState U h
                 (Some match signum with
                       | SIGTSTP => send_SIGSTOP p
                       | SIGCONT => send_SIGCONT p
                       | SIGHUP => Popen_kill p
                       end) true u)) as Hdeliver.
  { intros signum. unfold deliver.
    cbv [mbind mret M_bind M_ret get]. cbn [handlers]. rewrite Hh.
    by destruct signum. }
  split; intros Halive.
  - rewrite !Hdeliver. unfold send_SIGSTOP, send_SIGCONT, Popen_kill.
    by rewrite Halive.
  - intros signum. rewrite Hdeliver.
    unfold send_SIGSTOP, send_SIGCONT, Popen_kill. rewrite Halive.
    by destruct signum.
Qed.
End Run.

Lemma signals_drive_the_child_witness :
  let with_child p := mkState unit installed (Some p) true tt in
  deliver unit SIGTSTP (with_child Example.a_child)
  = (Ok tt, with_child (mkPopen ["sent 42 bytes"] 0 true true))
  /\ deliver unit SIGHUP (with_child Example.a_child)
     = (Ok tt, with_child (killed Example.a_child)).
Proof.
  destruct (signals_drive_the_child unit installed tt Example.a_child)
    as [Halive _].
  - reflexivity.
  - destruct Halive as (Hstop & _ & Hkill & _); [reflexivity|].
    split; [exact Hstop | exact Hkill].
Defined.

End StreamFacts.

(** ** Facts about stripping and splitting *)

Module TextFacts.
Import Tokens.

Lemma split_on_from_free sep s : forall piece,
  sep ∉ list_ascii_of_string piece ->
  Forall (fun p => sep ∉ list_ascii_of_string p) (Py.split_on_from sep piece s).
Proof.
  induction s as [|c s IH]; intros piece Hpiece; cbn [Py.split_on_from].
  - by constructor.
  - destruct (ascii_dec c sep) as [->|Hc].
    + constructor; [done|]. apply IH. cbn. apply not_elem_of_nil.
    + apply IH. rewrite ServiceHelperFacts.list_ascii_of_append.
      cbn. rewrite elem_of_app, list_elem_of_singleton. naive_solver.
Qed.

Lemma split_on_from_chars sep s : forall piece p c,
  p ∈ Py.split_on_from sep piece s ->
  c ∈ list_ascii_of_string p ->
  c ∈ list_ascii_of_string piece \/ c ∈ list_ascii_of_string s.
Proof.
  induction s as [|a s IH]; intros piece p c; cbn [Py.split_on_from].
  - intros ->%list_elem_of_singleton. by left.
  - destruct (ascii_dec a sep) as [->|Ha].
    + intros [->|Hp]%elem_of_cons Hc; [by left|].
      destruct (IH _ _ _ Hp Hc) as [[]%elem_of_nil|H]. right. by right.
    + intros Hp Hc. destruct (IH _ _ _ Hp Hc) as [H|H].
      * rewrite ServiceHelperFacts.list_ascii_of_append in H.
        apply elem_of_app in H as [H|H%list_elem_of_singleton]; [by left|].
        subst. right. by left.
      * right. by right.
Qed.

Lemma lstrip_chars chars s c :
  c ∈ list_ascii_of_string (Py.lstrip chars s) -> c ∈ list_ascii_of_string s.
Proof.
  induction s as [|a s IH]; [done|]. cbn [Py.lstrip].
  destruct (chars a); [|done]. intros H. cbn. right. by apply IH.
Qed.

Lemma rstrip_chars chars s c :
  c ∈ list_ascii_of_string (Py.rstrip chars s) -> c ∈ list_ascii_of_string s.
Proof.
  induction s as [|a s IH]; [done|]. cbn [Py.rstrip].
  destruct (Py.rstrip chars s) as [|b t] eqn:Hr.
  - destruct (chars a); cbn; [by intros ?%elem_of_nil|].
    intros ->%list_elem_of_singleton. by left.
  - cbn [list_ascii_of_string]. intros [->|H]%elem_of_cons; [by left|].
    right. by apply IH.
Qed.

Lemma lstrip_head chars s :
  match Py.lstrip chars s with
  | EmptyString => True
  | String c _ => chars c = false
  end.
Proof.
  induction s as [|a s IH]; [done|]. cbn [Py.lstrip].
  by destruct (chars a) eqn:Ha.
Qed.

Lemma rstrip_cons chars a s :
  Py.rstrip chars (String a s)
  = match Py.rstrip chars s with
    | EmptyString => if chars a then EmptyString else Py.str1 a
    | t => String a t
    end.
Proof. reflexivity. Qed.

Lemma rstrip_idem chars s :
  Py.rstrip chars (Py.rstrip chars s) = Py.rstrip chars s.
Proof.
  induction s as [|a s IH]; [done|]. rewrite rstrip_cons.
  destruct (Py.rstrip chars s) as [|b t] eqn:Hr.
  - destruct (chars a) eqn:Ha; [done|]. cbn. by rewrite Ha.
  - rewrite rstrip_cons, IH. done.
Qed.

Lemma rstrip_head chars a s :
  chars a = false ->
  exists t, Py.rstrip chars (String a s) = String a t.
Proof.
  intros Ha. cbn [Py.rstrip]. destruct (Py.rstrip chars s).
  - rewrite Ha. by eexists.
  - by eexists.
Qed.

Lemma strip_trimmed chars s : trimmed chars (Py.strip chars s).
Proof.
  unfold trimmed, Py.strip. split; [|apply rstrip_idem].
  pose proof (lstrip_head chars s) as Hhead.
  destruct (Py.lstrip chars s) as [|a u]; [done|].
  destruct (rstrip_head chars a u Hhead) as [t ->].
  cbn [Py.lstrip]. by rewrite Hhead.
Qed.

End TextFacts.

(** ** [tools.py]: the capability tokens *)

Module CapabilitiesFacts.
Import Tools Tokens TextFacts.

Lemma capabilities_tokens group t :
  t ∈ capabilities group ->
  t <> EmptyString
  /\ trimmed blank t
  /\ (","%char ∉ list_ascii_of_string t)
  /\ (Py.LF ∉ list_ascii_of_string t).
Proof.
  unfold capabilities. rewrite list_elem_of_In, in_concat.
  intros (tokens & Htokens & Ht).
  apply in_map_iff in Htokens as (line & <- & Hline).
  apply in_map_iff in Ht as (i & <- & Hi).
  apply list_elem_of_In, list_elem_of_filter in Hi as [Hne Hi].
  assert (","%char ∉ list_ascii_of_string i) as Hcomma.
  { pose proof (split_on_from_free ","%char line EmptyString) as H.
    rewrite Forall_forall in H. apply H; [apply not_elem_of_nil|done]. }
  assert (Py.LF ∉ list_ascii_of_string line) as HLF.
  { pose proof (split_on_from_free Py.LF group EmptyString) as H.
    rewrite Forall_forall in H. apply H; [apply not_elem_of_nil|].
    by apply list_elem_of_In. }
  split; [by destruct (strip_token i)|].
  split; [apply strip_trimmed|].
  unfold strip_token, Py.strip. split.
  - intros H%rstrip_chars%lstrip_chars. done.
  - intros H%rstrip_chars%lstrip_chars.
    destruct (split_on_from_chars _ _ _ _ _ Hi H) as [[]%elem_of_nil|]. done.
Qed.

Section RsyncCaps.
Variable V : Type.
Variable Version : string -> Result V.
Variable ge : V -> V -> bool.
Variable rsync_version : Result string.

(** X13. Every capability [rsyncCaps] returns is a token fit to be looked
    up by its name: it is not empty, neither starts nor ends with a blank
    or a line feed, and holds no comma and no line feed. *)
Theorem rsyncCaps_tokens data :
  match rsyncCaps V Version ge rsync_version data with
  | Ok caps =>
      Forall (fun cap =>
                cap <> EmptyString
                /\ trimmed blank cap
                /\ (","%char ∉ list_ascii_of_string cap)
                /\ (Py.LF ∉ list_ascii_of_string cap)) caps
  | Raise _ => True
  end.
Proof.
  assert (Hprogress2 :
    "progress2" <> EmptyString
    /\ trimmed blank "progress2"
    /\ (","%char ∉ list_ascii_of_string "progress2")
    /\ (Py.LF ∉ list_ascii_of_string "progress2")).
  { split; [done|]. split; [by split|].
    split; apply (proj1 (bool_decide_eq_false _)); by vm_compute. }
  unfold rsyncCaps.
  destruct (match data with Some _ => _ | None => _ end) as [text|e];
    [|done].
  destruct (progress2 _ _ _ _ _) as [p|e]; [|done].
  assert (Hcaps : Forall (fun cap =>
                cap <> EmptyString
                /\ trimmed blank cap
                /\ (","%char ∉ list_ascii_of_string cap)
                /\ (Py.LF ∉ list_ascii_of_string cap))
            (if p then ["progress2"] else [])).
  { destruct p; [|constructor]. by apply Forall_singleton. }
  destruct (match_capabilities text) as [group|]; [|done].
  apply Forall_app. split; [done|].
  apply Forall_forall. intros cap Hcap.
  by apply (capabilities_tokens group).
Qed.

End RsyncCaps.

End CapabilitiesFacts.

(** ** [tools.py]: the arguments of the rsync command *)

Module RsyncCommandFacts.
Import Tools RsyncCommand.

Section RsyncPrefix.
Variable V : Type.
Variable Version : string -> Result V.
Variable ge : V -> V -> bool.
Variable rsync_version : Result string.
Variable shlex_split : string -> Result (list string).

Local Abbreviation rsyncCaps := (rsyncCaps V Version ge rsync_version).
Local Abbreviation rsyncPrefix :=
  (rsyncPrefix V Version ge rsync_version shlex_split).

Lemma if_app (b : bool) (cmd args : list string) :
  (if b then (cmd ++ args)%list else cmd) = (cmd ++ when b args)%list.
Proof. destruct b; [done|]. by rewrite app_nil_r. Qed.

Lemma if_app_app (b : bool) (cmd args args' : list string) :
  (if b then (cmd ++ args)%list else (cmd ++ args')%list)
  = (cmd ++ if b then args else args')%list.
Proof. by destruct b. Qed.

Lemma if_app_pair (b no_perms : bool) (cmd args : list string) :
  (if b then ((cmd ++ args)%list, false) else (cmd, no_perms))
  = ((cmd ++ when b args)%list, no_perms && negb b).
Proof.
  destruct b; cbn; [by rewrite andb_false_r|].
  by rewrite app_nil_r, andb_true_r.
Qed.

(** The arguments of [rsyncPrefix] in the order they are appended. *)
Lemma rsyncPrefix_parts config no_perms use_mode progress caps :
  rsyncCaps None = Ok caps ->
  let acls := preserveAcl config && bool_decide ("ACLs" ∈ caps) in
  let xattrs := preserveXattr config && bool_decide ("xattrs" ∈ caps) in
  let front :=
    concat
      [ when (nocacheOnLocal config) ["nocache"];
        ["rsync"];
        ["--recursive"; "--times"; "--devices"; "--specials";
         "--hard-links"; "--human-readable"; "-s"];
        when (useChecksum config || forceUseChecksum config) ["--checksum"];
        when (copyUnsafeLinks config) ["--copy-unsafe-links"];
        if copyLinks config then ["--copy-links"] else ["--links"];
        when (oneFileSystem config) ["--one-file-system"];
        when acls ["--acls"];
        when xattrs ["--xattrs"];
        if no_perms && negb acls && negb xattrs
        then ["--no-perms"; "--no-group"; "--no-owner"]
        else ["--perms"; "--executability"; "--group"; "--owner"];
        when (progress && bool_decide ("progress2" ∈ caps))
          ["--info=progress2"; "--no-inc-recursive"];
        when (bwlimitEnabled config)
          ["--bwlimit=" +:+ pretty (bwlimit config)] ] in
  rsyncPrefix config no_perms use_mode progress =
    if rsyncOptionsEnabled config then
      match shlex_split (rsyncOptions config) with
      | Raise e => Raise e
      | Ok options => Ok (front ++ options ++ rsyncSshArgs config use_mode)%list
      end
    else Ok (front ++ rsyncSshArgs config use_mode)%list.
Proof.
  intros Hcaps. unfold RsyncCommand.rsyncPrefix. rewrite Hcaps.
  cbv zeta.
  rewrite !if_app_pair. cbv beta iota.
  rewrite !if_app, !if_app_app.
  cbn [concat]. rewrite app_nil_r, <- !app_assoc. reflexivity.
Qed.

Lemma Ok_inj {A} (x y : A) : Ok x = Ok y -> x = y.
Proof. by intros [= ->]. Qed.

Lemma listed_spec flag args : listed flag args = true <-> flag ∈ args.
Proof.
  induction args as [|arg args IH]; cbn; [set_solver|].
  rewrite orb_true_iff, IH, String.eqb_eq. set_solver.
Qed.

Lemma listed_app flag args args' :
  listed flag (args ++ args') = listed flag args || listed flag args'.
Proof.
  induction args as [|arg args IH]; cbn; [done|].
  by rewrite IH, orb_assoc.
Qed.

Lemma listed_concat flag parts :
  listed flag (concat parts) = existsb (listed flag) parts.
Proof.
  induction parts as [|part parts IH]; cbn; [done|].
  by rewrite listed_app, IH.
Qed.

Lemma listed_concat_app flag parts args :
  listed flag (concat parts ++ args)
  = existsb (listed flag) parts || listed flag args.
Proof. by rewrite listed_app, listed_concat. Qed.

Lemma listed_when flag b args :
  listed flag (when b args) = listed flag args && b.
Proof. destruct b; cbn; [by rewrite andb_true_r|by rewrite andb_false_r]. Qed.

Lemma listed_if flag (b : bool) args args' :
  listed flag (if b then args else args')
  = if b then listed flag args else listed flag args'.
Proof. by destruct b. Qed.

Lemma rsyncSshArgs_start config use_mode arg :
  arg ∈ rsyncSshArgs config use_mode ->
  Py.startswith "--rsh=" arg = true
  \/ Py.startswith "--rsync-path=" arg = true.
Proof.
  unfold rsyncSshArgs.
  destruct (_ && _); [|by intros ?%elem_of_nil].
  destruct (_ || _); cbn [app].
  - intros [->|[->|[]%elem_of_nil]%elem_of_cons]%elem_of_cons; [by left|].
    right. by destruct (niceOnRemote config), (ioniceOnRemote config),
      (nocacheOnRemote config).
  - intros [->|[]%elem_of_nil]%elem_of_cons. by left.
Qed.

Lemma startswith_trans p q s :
  Py.startswith p q = true -> Py.startswith q s = true ->
  Py.startswith p s = true.
Proof.
  revert q s. induction p as [|a p IH]; intros [|b q] [|c s]; cbn; try done.
  repeat case_match; subst; try done. apply IH.
Qed.

Lemma listed_ssh config use_mode flag :
  Py.startswith "--rs" flag = false ->
  listed flag (rsyncSshArgs config use_mode) = false.
Proof.
  intros Hflag. apply not_true_is_false.
  intros [H|H]%listed_spec%rsyncSshArgs_start.
  - by rewrite (startswith_trans "--rs" "--rsh=" flag) in Hflag.
  - by rewrite (startswith_trans "--rs" "--rsync-path=" flag) in Hflag.
Qed.

Lemma listed_bwlimit flag limit :
  Py.startswith "--b" flag = false ->
  listed flag ["--bwlimit=" +:+ limit] = false.
Proof.
  intros Hflag. apply not_true_is_false.
  intros [->|[]%elem_of_nil]%listed_spec%elem_of_cons. discriminate Hflag.
Qed.

Lemma if_same {A} (b : bool) (x : A) : (if b then x else x) = x.
Proof. by destruct b. Qed.

Ltac listed_parts :=
  rewrite !listed_concat_app; cbn [existsb];
  rewrite ?listed_when, ?listed_if;
  rewrite ?listed_ssh, ?listed_bwlimit by reflexivity;
  cbn [listed String.eqb Ascii.eqb Bool.eqb andb orb negb];
  rewrite ?if_same, ?orb_false_r.

Ltac split_bool b :=
  match goal with
  | |- context [b] => destruct b
  | _ => idtac
  end.

(** X14. In the command [rsyncPrefix] returns for a profile without options
    of the user's own, the switches on permissions come as one of two
    groups, never both and never in part: [--no-perms --no-group --no-owner]
    when the caller asked for it and neither ACLs nor extended attributes
    are preserved, else [--perms --executability --group --owner].  [--acls]
    and [--xattrs] each stand exactly when the profile asks for it and rsync
    names the capability, one of [--links] and [--copy-links] stands, by the
    profile, and [--info=progress2] exactly when progress is asked for and
    rsync can. *)
Theorem rsyncPrefix_permissions config no_perms use_mode progress caps cmd :
  rsyncCaps None = Ok caps ->
  rsyncOptionsEnabled config = false ->
  rsyncPrefix config no_perms use_mode progress = Ok cmd ->
  ("--acls" ∈ cmd <-> preserveAcl config = true /\ "ACLs" ∈ caps)
  /\ ("--xattrs" ∈ cmd <-> preserveXattr config = true /\ "xattrs" ∈ caps)
  /\ ("--no-perms" ∈ cmd <->
      no_perms = true /\ ("--acls" ∉ cmd) /\ ("--xattrs" ∉ cmd))
  /\ ("--perms" ∈ cmd <-> "--no-perms" ∉ cmd)
  /\ (forall flag, flag ∈ ["--no-group"; "--no-owner"] ->
        flag ∈ cmd <-> "--no-perms" ∈ cmd)
  /\ (forall flag, flag ∈ ["--executability"; "--group"; "--owner"] ->
        flag ∈ cmd <-> "--perms" ∈ cmd)
  /\ ("--copy-links" ∈ cmd <-> copyLinks config = true)
  /\ ("--links" ∈ cmd <-> "--copy-links" ∉ cmd)
  /\ ("--info=progress2" ∈ cmd <-> progress = true /\ "progress2" ∈ caps).
Proof.
  intros Hcaps Hoptions.
  rewrite (rsyncPrefix_parts _ _ _ _ _ Hcaps), Hoptions.
  intros Hcmd%Ok_inj.
  split_and!.
  all: try (intros flag Hflag;
            repeat (apply elem_of_cons in Hflag as [->|Hflag]);
            try by apply elem_of_nil in Hflag).
  all: rewrite <- !(listed_spec _ cmd); subst cmd.
  all: listed_parts.
  all: (repeat case_bool_decide;
    split_bool (preserveAcl config); split_bool (preserveXattr config);
    split_bool no_perms; split_bool (copyLinks config); split_bool progress;
    cbn; naive_solver).
Qed.

Lemma rsyncPrefix_raises config no_perms use_mode progress e :
  rsyncCaps None = Raise e ->
  rsyncPrefix config no_perms use_mode progress = Raise e.
Proof. intros H. unfold RsyncCommand.rsyncPrefix. by rewrite H. Qed.

(** X16. [rsyncPrefix] raises only what the capability probe raises or, the
    probe done, what splitting the user's options raises.  What it returns
    starts with [rsync], after [nocache] when the profile asks for that, and
    ends with the user's options as split, if enabled, and then the ssh
    arguments of the profile; of the arguments before these the only one in
    [--bwlimit=] is the limit of the profile, there when it is enabled. *)
Theorem rsyncPrefix_outcome config no_perms use_mode progress :
  match rsyncPrefix config no_perms use_mode progress with
  | Ok cmd =>
      exists caps front options,
        rsyncCaps None = Ok caps
        /\ cmd = (front ++ options ++ rsyncSshArgs config use_mode)%list
        /\ (if nocacheOnLocal config
            then take 2 front = ["nocache"; "rsync"]
            else take 1 front = ["rsync"])
        /\ (if rsyncOptionsEnabled config
            then shlex_split (rsyncOptions config) = Ok options
            else options = [])
        /\ (forall arg, Py.startswith "--bwlimit=" arg = true ->
              arg ∈ front <->
              bwlimitEnabled config = true
              /\ arg = "--bwlimit=" +:+ pretty (bwlimit config))
  | Raise e =>
      rsyncCaps None = Raise e
      \/ (is_Ok (rsyncCaps None) = true
          /\ rsyncOptionsEnabled config = true
          /\ shlex_split (rsyncOptions config) = Raise e)
  end.
Proof.
  destruct (rsyncCaps None) as [caps|e] eqn:Hcaps.
  2: { rewrite (rsyncPrefix_raises _ _ _ _ _ Hcaps). by left. }
  rewrite (rsyncPrefix_parts _ _ _ _ _ Hcaps). cbv zeta.
  set (front := concat _).
  assert (Hfront : (if nocacheOnLocal config
                    then take 2 front = ["nocache"; "rsync"]
                    else take 1 front = ["rsync"])
    /\ (forall arg, Py.startswith "--bwlimit=" arg = true ->
          arg ∈ front <->
          bwlimitEnabled config = true
          /\ arg = "--bwlimit=" +:+ pretty (bwlimit config))).
  { split; [subst front; by destruct (nocacheOnLocal config)|].
    intros arg Harg. rewrite <- listed_spec. subst front.
    rewrite listed_concat. cbn [existsb].
    rewrite !listed_when, !listed_if.
    assert (Hlit : forall args,
      forallb (fun a => negb (Py.startswith "--bwlimit=" a)) args = true ->
      listed arg args = false).
    { intros args Hargs. apply not_true_is_false. intros Hin%listed_spec.
      rewrite forallb_forall in Hargs.
      apply list_elem_of_In, Hargs in Hin. by rewrite Harg in Hin. }
    rewrite !Hlit by reflexivity.
    rewrite !if_same. cbn [andb orb].
    rewrite orb_false_r. cbn [listed]. rewrite orb_false_r.
    rewrite andb_true_iff, String.eqb_eq. tauto. }
  destruct Hfront as [Hhead Hbw].
  destruct (rsyncOptionsEnabled config).
  - destruct (shlex_split _) as [options|e] eqn:Hsplit.
    + by exists caps, front, options.
    + by right.
  - exists caps, front, []. by rewrite app_nil_l.
Qed.

Lemma rsyncSshArgs_unfold config use_mode :
  rsyncSshArgs config use_mode =
    if bool_decide (snapshotsMode config ∈ ssh_modes)
       && bool_decide (snapshotsMode config ∈ use_mode)
    then ("--rsh=" +:+ join_with " " (sshCommand config))
         :: when (niceOnRemote config || ioniceOnRemote config
                  || nocacheOnRemote config)
              ["--rsync-path="
               +:+ (if niceOnRemote config then "nice -n 19 " else EmptyString)
               +:+ (if ioniceOnRemote config then "ionice -c2 -n7 "
                    else EmptyString)
               +:+ (if nocacheOnRemote config then "nocache "
                    else EmptyString)
               +:+ "rsync"]
    else [].
Proof.
  unfold rsyncSshArgs.
  by destruct (_ && _), (niceOnRemote config), (ioniceOnRemote config),
    (nocacheOnRemote config).
Qed.

(** X15. The ssh arguments are there exactly for a profile in one of the two
    ssh modes that the caller listed.  The first is [--rsh=] with the ssh
    command; a second follows exactly when the remote side is to run under
    [nice], [ionice] or [nocache], and is [--rsync-path=] with just the
    wrappers asked for, ending in [rsync].  [rsyncRemove] is its four fixed
    arguments, followed when it runs locally by the ssh arguments of any
    profile in an ssh mode. *)
Theorem ssh_arguments config use_mode :
  let mode := snapshotsMode config in
  let args := rsyncSshArgs config use_mode in
  let wrapped := niceOnRemote config || ioniceOnRemote config
                 || nocacheOnRemote config in
  (args <> [] <-> mode ∈ ssh_modes /\ mode ∈ use_mode)
  /\ (args <> [] ->
      args = ("--rsh=" +:+ join_with " " (sshCommand config)) :: drop 1 args)
  /\ (args <> [] ->
      if wrapped
      then exists wrappers,
        drop 1 args = ["--rsync-path=" +:+ wrappers +:+ "rsync"]
        /\ wrappers <> EmptyString
        /\ (Py.find "nice -n 19 " wrappers <> -1
            <-> niceOnRemote config = true)
        /\ (Py.find "ionice " wrappers <> -1
            <-> ioniceOnRemote config = true)
        /\ (Py.find "nocache " wrappers <> -1
            <-> nocacheOnRemote config = true)
      else drop 1 args = [])
  /\ rsyncRemove config false = ["rsync"; "-a"; "--delete"; "-s"]
  /\ rsyncRemove config true
     = (["rsync"; "-a"; "--delete"; "-s"] ++ rsyncSshArgs config ssh_modes)%list
  /\ (rsyncSshArgs config ssh_modes <> [] <-> mode ∈ ssh_modes).
Proof.
  cbv zeta. rewrite !rsyncSshArgs_unfold.
  split_and!; try done.
  - case_bool_decide; case_bool_decide; cbn; naive_solver.
  - by destruct (_ && _).
  - destruct (_ && _); [|done]. intros _.
    destruct (_ || _) eqn:Hwrapped; [|done]. cbn [when drop].
    exists ((if niceOnRemote config then "nice -n 19 " else EmptyString)
            +:+ (if ioniceOnRemote config then "ionice -c2 -n7 "
                 else EmptyString)
            +:+ (if nocacheOnRemote config then "nocache "
                 else EmptyString)).
    destruct (niceOnRemote config), (ioniceOnRemote config),
      (nocacheOnRemote config); try done.
    all: split; [reflexivity|].
    all: split; [done|].
    all: split_and!; split; try done; by vm_compute.
  - unfold rsyncRemove. by rewrite rsyncSshArgs_unfold.
  - case_bool_decide; cbn; naive_solver.
Qed.

End RsyncPrefix.

Lemma rsyncPrefix_permissions_witness :
  let caps := ["progress2"; "64-bit files"; "ACLs"; "xattrs"] in
  let cmd :=
    ["rsync"; "--recursive"; "--times"; "--devices"; "--specials";
     "--hard-links"; "--human-readable"; "-s"; "--links"; "--acls";
     "--xattrs"; "--perms"; "--executability"; "--group"; "--owner";
     "--info=progress2"; "--no-inc-recursive"; "--bwlimit=300";
     "--rsh=ssh -p 22"; "--rsync-path=nice -n 19 rsync"] in
  rsyncPrefix (list nat) ReleaseVersion release_ge
    (Ok Tools.Example.rsync_3_1_0) (fun _ => Ok []) Example.profile
    true ssh_modes true = Ok cmd
  /\ ("--acls" ∈ cmd <->
      preserveAcl Example.profile = true /\ "ACLs" ∈ caps)
  /\ ("--perms" ∈ cmd <-> "--no-perms" ∉ cmd).
Proof.
  cbv zeta. split; [vm_compute; reflexivity|].
  destruct (rsyncPrefix_permissions (list nat) ReleaseVersion release_ge
              (Ok Tools.Example.rsync_3_1_0) (fun _ => Ok [])
              Example.profile true ssh_modes true
              ["progress2"; "64-bit files"; "ACLs"; "xattrs"]
              ["rsync"; "--recursive"; "--times"; "--devices"; "--specials";
               "--hard-links"; "--human-readable"; "-s"; "--links"; "--acls";
               "--xattrs"; "--perms"; "--executability"; "--group"; "--owner";
               "--info=progress2"; "--no-inc-recursive"; "--bwlimit=300";
               "--rsh=ssh -p 22"; "--rsync-path=nice -n 19 rsync"])
    as (Hacls & _ & _ & Hperms & _).
  - vm_compute; reflexivity.
  - vm_compute; reflexivity.
  - vm_compute; reflexivity.
  - split; [exact Hacls | exact Hperms].
Defined.

End RsyncCommandFacts.

(** ** [tools.py]: paths, command lists and the path history *)

Module PathsFacts.
Import Tokens TextFacts Paths.








Lemma append_nil_r (a : string) : a +:+ EmptyString = a.
Proof.
  induction a as [|x a IH]; [done|].
  by rewrite ServiceHelperFacts.append_cons, IH.
Qed.

Section SplitCommands.
Variables head tail : string.
Variable maxLength : Z.

Local Abbreviation fill := (fill tail maxLength).
Local Abbreviation next_command := (next_command head tail maxLength).
Local Abbreviation splitCommands := (splitCommands head tail maxLength).
Local Abbreviation command := (command head tail).
Local Abbreviation fits := (fits head tail maxLength).

Lemma fill_taken cmds : forall s,
  exists taken rest,
    fill s cmds = (s +:+ Py.join taken, rest)
    /\ cmds = (taken ++ rest)%list
    /\ (0 < maxLength -> taken <> [] ->
        len ((s +:+ Py.join taken) +:+ tail) <= maxLength)
    /\ (maxLength <= 0 -> rest = [])
    /\ (forall cmd cmds', cmds = cmd :: cmds' ->
        len ((s +:+ cmd) +:+ tail) <= maxLength -> taken <> [])
    /\ (forall cmd rest', rest = cmd :: rest' ->
        maxLength < len (((s +:+ Py.join taken) +:+ cmd) +:+ tail)).
Proof.
  induction cmds as [|cmd cmds IH]; intros s.
  - exists [], []. cbn. rewrite append_nil_r.
    by split_and!.
  - cbn [Paths.fill].
    destruct (_ || _) eqn:Hfit.
    + destruct (IH (s +:+ cmd)) as
        (taken & rest & Hfill & -> & Hlen & Hall & _ & Hnext).
      exists (cmd :: taken), rest. cbn [Py.join foldr].
      rewrite <- !ServiceHelperFacts.append_assoc.
      split_and!; try done.
      intros Hpos _. destruct taken as [|cmd' taken]; [|by apply Hlen].
      cbn. rewrite append_nil_r.
      apply orb_true_iff in Hfit as [?%Z.leb_le|?%Z.leb_le]; lia.
    + apply orb_false_iff in Hfit as [Hlong%Z.leb_gt Hpos%Z.leb_gt].
      exists [], (cmd :: cmds). cbn. rewrite append_nil_r.
      split_and!; try done; try lia.
      * intros ? ? [= <- <-]. lia.
      * by intros ? ? [= <- <-].
Qed.

Lemma join_app (a b : list string) :
  Py.join (a ++ b) = Py.join a +:+ Py.join b.
Proof.
  induction a as [|x a IH]; [done|]. unfold Py.join in *.
  cbn [app foldr]. by rewrite IH, ServiceHelperFacts.append_assoc.
Qed.

Lemma next_command_stuck cmd cmds :
  0 < maxLength -> ~ fits cmd ->
  next_command (cmd :: cmds) = Some (head +:+ tail, cmd :: cmds).
Proof.
  unfold Paths.fits. intros Hpos Hlong. unfold Paths.next_command.
  cbn [Paths.fill].
  destruct (_ || _) eqn:Hfit; [|done].
  apply orb_true_iff in Hfit as [?%Z.leb_le|?%Z.leb_le]; lia.
Qed.

(** X18. With a positive [maxLength], a command that does not fit between
    [head] and [tail] on its own is never popped: at the front of the list,
    every resumption of the generator yields [head + tail] and leaves the
    list as it is, so the generator does not end. *)
Theorem splitCommands_never_passes_a_long_command cmd cmds n :
  0 < maxLength -> ~ fits cmd ->
  splitCommands n (cmd :: cmds) = (replicate n (head +:+ tail), cmd :: cmds).
Proof.
  intros Hpos Hlong. induction n as [|n IH]; [done|].
  cbn [Paths.splitCommands replicate].
  by rewrite next_command_stuck, IH.
Qed.

(** X19. When [maxLength] is not positive, or every command fits between
    [head] and [tail] on its own, the generator ends within as many
    resumptions as there are commands, with the list emptied.  What it
    yields are the commands in their order, cut into groups none of which is
    empty, each between [head] and [tail]: with a positive [maxLength] no
    longer than that, and each group filled as far as it goes, the first
    command of the next one no longer fitting in; without one, a single
    group. *)
Theorem splitCommands_groups cmds n :
  maxLength <= 0 \/ Forall fits cmds ->
  (length cmds <= n)%nat ->
  exists groups,
    splitCommands n cmds = (map command groups, [])
    /\ concat groups = cmds
    /\ Forall (fun group => group <> []) groups
    /\ (0 < maxLength ->
        Forall (fun group => len (command group) <= maxLength) groups)
    /\ (maxLength <= 0 -> cmds <> [] -> groups = [cmds])
    /\ (forall i group cmd group',
          groups !! i = Some group ->
          groups !! S i = Some (cmd :: group') ->
          maxLength < len (command (group ++ [cmd]))).
Proof.
  revert cmds. induction n as [|n IH]; intros cmds Hfits Hn.
  { destruct cmds; [|cbn in Hn; lia]. exists []. by split_and!. }
  destruct cmds as [|cmd cmds].
  { exists []. by split_and!. }
  cbn [Paths.splitCommands]. unfold Paths.next_command.
  destruct (fill_taken (cmd :: cmds) head) as
    (taken & rest & Hfill & Hcmds & Hlen & Hall & Hfirst & Hnext).
  rewrite Hfill.
  assert (Htaken : taken <> []).
  { destruct Hfits as [Hmax|Hfits].
    - rewrite (Hall Hmax), app_nil_r in Hcmds. by rewrite <- Hcmds.
    - eapply Hfirst; [done|]. by apply Forall_cons in Hfits as [? _]. }
  destruct (IH rest) as (groups & Hsplit & Hconcat & Hne & Hmax & Hone & Hgreedy).
  { destruct Hfits as [?|Hfits]; [by left|right].
    rewrite Hcmds in Hfits. by apply Forall_app in Hfits as [_ ?]. }
  { apply (f_equal length) in Hcmds. rewrite length_app in Hcmds.
    cbn [length] in *. destruct taken; [done|]. cbn [length] in Hcmds. lia. }
  rewrite Hsplit. exists (taken :: groups).
  split_and!.
  - done.
  - cbn. by rewrite Hconcat.
  - by constructor.
  - intros Hpos. constructor; [|by apply Hmax]. by apply Hlen.
  - intros Hle _. specialize (Hall Hle). subst rest.
    rewrite app_nil_r in Hcmds. subst taken.
    destruct groups as [|group groups]; [done|].
    apply Forall_cons in Hne as [Hgroup _]. destruct group; [done|].
    discriminate Hconcat.
  - intros [|i] group cmd' group'; cbn.
    + intros [= <-] Hnext'. destruct groups as [|? groups]; [done|].
      cbn in Hnext'. injection Hnext' as ->.
      unfold Paths.command. rewrite join_app. cbn [Py.join foldr].
      rewrite append_nil_r, <- ServiceHelperFacts.append_assoc.
      eapply Hnext. by rewrite <- Hconcat.
    + apply Hgreedy.
Qed.

End SplitCommands.

Lemma splitCommands_never_passes_a_long_command_witness :
  splitCommands "nice " ";" 8 2 ["rsync -a"; "ls"]
  = (["nice ;"; "nice ;"], ["rsync -a"; "ls"]).
Proof.
  apply (splitCommands_never_passes_a_long_command "nice " ";" 8 "rsync -a"
           ["ls"] 2).
  - lia.
  - unfold fits. vm_compute. intros H. by apply H.
Defined.

Lemma splitCommands_groups_witness :
  exists groups,
    splitCommands EmptyString ";" 5 3 ["ab"; "cd"; "e"]
    = (map (command EmptyString ";") groups, [])
    /\ concat groups = ["ab"; "cd"; "e"].
Proof.
  destruct (splitCommands_groups EmptyString ";" 5 ["ab"; "cd"; "e"] 3)
    as (groups & Hsplit & Hconcat & _).
  - right. repeat constructor; unfold fits; by vm_compute.
  - cbn; lia.
  - exists groups. split; [exact Hsplit | exact Hconcat].
Defined.

Lemma item_inside l i :
  0 <= i < Z.of_nat (length l) ->
  exists x, item l i = Ok x /\ l !! Z.to_nat i = Some x.
Proof.
  intros Hi. unfold item. cbv zeta.
  destruct (Z.ltb_spec i 0); [lia|].
  destruct (Z.leb_spec 0 i); [|lia].
  destruct (Z.ltb_spec i (Z.of_nat (length l))); [|lia]. cbn [andb].
  destruct (lookup_lt_is_Some_2 l (Z.to_nat i)) as [x Hx]; [lia|].
  rewrite Hx. by exists x.
Qed.

Lemma item_last l :
  l <> [] -> item l (-1) = item l (Z.of_nat (length l) - 1).
Proof.
  intros Hl. unfold item. cbv zeta.
  assert (0 < Z.of_nat (length l)) by (destruct l; [done|cbn; lia]).
  destruct (Z.ltb_spec (-1) 0); [|lia].
  destruct (Z.ltb_spec (Z.of_nat (length l) - 1) 0); [lia|].
  by replace (-1 + Z.of_nat (length l)) with (Z.of_nat (length l) - 1) by lia.
Qed.

Lemma slice_to_inside l k :
  0 <= k -> slice_to l k = take (Z.to_nat k) l.
Proof.
  intros Hk. unfold slice_to. cbv zeta. by destruct (Z.ltb_spec k 0); [lia|].
Qed.

Lemma previous_inside self :
  well_formed self ->
  previous self =
    let i := Z.max 0 (index self - 1) in
    (item (history self) i, mkPathHistory (history self) i).
Proof.
  unfold well_formed. intros Hwf. unfold previous. cbv zeta.
  destruct (Z.eqb_spec (index self) 0) as [H0|H0].
  - rewrite H0. cbn. by destruct self; cbn in *; subst.
  - destruct (item_inside (history self) (index self - 1)) as (x & Hx & _);
      [lia|].
    replace (Z.max 0 (index self - 1)) with (index self - 1) by lia.
    by rewrite Hx.
Qed.

Lemma next_inside self :
  well_formed self ->
  next self =
    let i := Z.min (Z.of_nat (length (history self)) - 1) (index self + 1) in
    (item (history self) i, mkPathHistory (history self) i).
Proof.
  unfold well_formed. intros Hwf. unfold next. cbv zeta.
  destruct (Z.eqb_spec (index self) (Z.of_nat (length (history self)) - 1))
    as [Hend|Hend].
  - rewrite item_last by (destruct (history self); [cbn in *; lia|done]).
    replace (Z.min _ _) with (index self) by lia.
    rewrite <- Hend. by destruct self.
  - destruct (item_inside (history self) (index self + 1)) as (x & Hx & _);
      [lia|].
    replace (Z.min _ _) with (index self + 1) by lia. by rewrite Hx.
Qed.

Lemma append_well_formed path self :
  well_formed self -> well_formed (append path self).
Proof.
  unfold well_formed, append. cbn. rewrite length_app. cbn. lia.
Qed.

Lemma call_well_formed c self :
  well_formed self -> well_formed (snd (call c self)).
Proof.
  intros Hwf. destruct c as [path| | |path]; cbn [call].
  - by apply append_well_formed.
  - rewrite previous_inside by done. unfold well_formed in *. cbn. lia.
  - rewrite next_inside by done. unfold well_formed in *. cbn. lia.
  - unfold well_formed. cbn. lia.
Qed.

Lemma calls_well_formed cs : forall self,
  well_formed self -> well_formed (calls cs self).
Proof.
  induction cs as [|c cs IH]; intros self Hwf; [done|].
  apply IH. by apply call_well_formed.
Qed.

(** X20. After any calls on it a [PathHistory] points at one of its
    entries.  [previous] and [next] then never raise and return the entry the
    object points at after the call; after [append] and [reset] that entry is
    the path given. *)
Theorem history_points_at_an_entry path cs :
  let self := calls cs (init path) in
  well_formed self
  /\ is_Ok (current self) = true
  /\ forall c,
       match call c self with
       | (Some returned, self') => returned = current self'
       | (None, self') =>
           exists path', (c = Append path' \/ c = Reset path')
             /\ current self' = Ok path'
       end.
Proof.
  cbv zeta. set (self := calls _ _).
  assert (Hwf : well_formed self).
  { apply calls_well_formed. unfold well_formed. cbn. lia. }
  split; [done|]. split.
  { unfold current. by destruct (item_inside _ _ Hwf) as (x & -> & _). }
  intros [path'| | |path']; cbn [call].
  - exists path'. split; [by left|]. unfold current, append. cbn [history index].
    destruct (item_inside (slice_to (history self) (index self + 1) ++ [path'])
      (Z.of_nat (length (slice_to (history self) (index self + 1) ++ [path']))
       - 1)) as (x & -> & Hx).
    { rewrite length_app. cbn. lia. }
    rewrite length_app in Hx. cbn [length] in Hx.
    rewrite lookup_app_r in Hx by lia.
    replace (_ - _)%nat with 0%nat in Hx by lia. by injection Hx as ->.
  - by rewrite previous_inside.
  - by rewrite next_inside.
  - exists path'. split; [by right|done].
Qed.

Lemma item_lookup l i x :
  0 <= i -> l !! Z.to_nat i = Some x -> item l i = Ok x.
Proof.
  intros Hi Hx. destruct (item_inside l i) as (y & -> & Hy).
  - apply lookup_lt_Some in Hx. lia.
  - congruence.
Qed.

Lemma append_inside path self :
  well_formed self ->
  append path self =
    mkPathHistory (take (S (Z.to_nat (index self))) (history self) ++ [path])
      (index self + 1).
Proof.
  unfold well_formed. intros Hwf. unfold append. cbv zeta.
  rewrite slice_to_inside by lia.
  replace (Z.to_nat (index self + 1)) with (S (Z.to_nat (index self))) by lia.
  f_equal. rewrite length_app, length_take. cbn [length]. lia.
Qed.

(** X21. [append] keeps the entries up to the current one, drops those
    after it and puts the path at the end; [previous] then returns what was
    current before and [next] the path again, where a further [next] stays.
    Away from the first entry [previous] is undone by [next], and away from
    the last [next] by [previous]. *)
Theorem history_navigation path cs path' :
  let self := calls cs (init path) in
  let added := append path' self in
  let back := mkPathHistory (history added) (index self) in
  history added
    = (take (S (Z.to_nat (index self))) (history self) ++ [path'])%list
  /\ previous added = (current self, back)
  /\ next back = (Ok path', added)
  /\ next added = (Ok path', added)
  /\ (0 < index self ->
      next (snd (previous self)) = (current self, self))
  /\ (index self < Z.of_nat (length (history self)) - 1 ->
      previous (snd (next self)) = (current self, self)).
Proof.
  cbv zeta. set (self := calls _ _).
  assert (Hwf : well_formed self).
  { apply calls_well_formed. unfold well_formed. cbn. lia. }
  pose proof (append_well_formed path' _ Hwf) as Hadded.
  rewrite append_inside in * by done.
  unfold well_formed in Hwf.
  destruct (item_inside _ _ Hwf) as (x & Hcur & Hx).
  set (kept := take _ _) in *.
  assert (Hkept : length kept = S (Z.to_nat (index self))).
  { subst kept. rewrite length_take. lia. }
  assert (Hlast : item (kept ++ [path']) (index self + 1) = Ok path').
  { apply item_lookup; [lia|]. rewrite lookup_app_r by lia.
    by replace (_ - _)%nat with 0%nat by lia. }
  assert (Hend : Z.of_nat (length (kept ++ [path'])) - 1 = index self + 1).
  { rewrite length_app. cbn [length]. lia. }
  split_and!.
  - done.
  - rewrite previous_inside by done. cbn [history index]. cbv zeta.
    replace (Z.max 0 (index self + 1 - 1)) with (index self) by lia.
    f_equal. unfold current. rewrite Hcur. apply item_lookup; [lia|].
    rewrite lookup_app_l by lia. subst kept. by rewrite lookup_take_lt by lia.
  - rewrite next_inside.
    2: { unfold well_formed. cbn [history index]. lia. }
    cbn [history index]. cbv zeta. rewrite Hend.
    replace (Z.min _ _) with (index self + 1) by lia. by rewrite Hlast.
  - rewrite next_inside by done.
    cbn [history index]. cbv zeta. rewrite Hend.
    replace (Z.min _ _) with (index self + 1) by lia. by rewrite Hlast.
  - intros Hpos. rewrite previous_inside by done. cbn [snd]. cbv zeta.
    rewrite next_inside.
    2: { unfold well_formed. cbn [history index]. lia. }
    cbn [history index]. cbv zeta.
    replace (Z.min _ _) with (index self) by lia.
    unfold current. by destruct self.
  - intros Hpos. rewrite next_inside by done. cbn [snd]. cbv zeta.
    rewrite previous_inside.
    2: { unfold well_formed. cbn [history index]. lia. }
    cbn [history index]. cbv zeta.
    replace (Z.max _ _) with (index self) by lia.
    unfold current. by destruct self.
Qed.

End PathsFacts.

(** ** [tools.py]: the age of a time stamp *)

Module AgeFacts.
Import Age.

Section OlderThan.
Variable timedelta : Type.
Variable timedelta_new : Z -> Z -> Z -> Result timedelta.
Variable sub : datetime -> timedelta -> Result datetime.
Variable TimeUnit_of : Z -> Result TimeUnit.

Local Abbreviation older_than :=
  (older_than timedelta timedelta_new sub TimeUnit_of).

Lemma datetime_new_Ok y m d H M S t :
  datetime_new y m d H M S = Ok t ->
  t = mkDatetime y m d H M S 0
  /\ 1 <= y <= 9999 /\ 1 <= m <= 12 /\ 1 <= d <= days_in_month y m
  /\ 0 <= H <= 23 /\ 0 <= M <= 59 /\ 0 <= S <= 59.
Proof.
  unfold datetime_new. destruct (_ && _) eqn:Hfields; [|done].
  intros [= <-]. repeat (apply andb_true_iff in Hfields as [Hfields ?]).
  split; [done|]. lia.
Qed.

Lemma datetime_new_raises y m d H M S e :
  datetime_new y m d H M S = Raise e -> e = ValueError.
Proof.
  unfold datetime_new. destruct (_ && _); [done|]. by intros [= <-].
Qed.

(** X22. For the unit [MONTH], [older_than] raises [ValueError] whenever the
    month it compares with is December, for it asks for the first day of
    the month after.  And it returns only when the microseconds of the
    current time are at most 59, for it builds the time to compare with
    from them as the seconds; what it returns then is whether the current
    time is before that time: the year and month [value] months after [dt],
    the day of [dt] or an earlier one, the hour and minute of the current
    time and its microseconds as seconds. *)
Theorem older_than_months dt value now :
  let compare_month := (month dt + value - 1) mod 12 + 1 in
  let compare_year := year dt + (month dt + value - 1) / 12 in
  (compare_month = 12 ->
   older_than dt value (inl MONTH) now = Raise ValueError)
  /\ match older_than dt value (inl MONTH) now with
     | Ok older =>
         compare_month <> 12
         /\ microsecond now <= 59
         /\ exists compare_day,
              1 <= compare_day <= day dt
              /\ older = lt now (mkDatetime compare_year compare_month
                                   compare_day (hour now) (minute now)
                                   (microsecond now) 0)
     | Raise e => True
     end.
Proof.
  cbv zeta. unfold Age.older_than, mbind, Result_bind.
  set (compare_month := (month dt + value - 1) mod 12 + 1).
  set (compare_year := year dt + (month dt + value - 1) / 12).
  split.
  - intros ->.
    by destruct (datetime_new compare_year (12 + 1) 1 0 0 0) as [first|e] eqn:H;
      [apply datetime_new_Ok in H; lia | apply datetime_new_raises in H as ->].
  - destruct (datetime_new compare_year (compare_month + 1) 1 0 0 0)
      as [first|e] eqn:Hfirst; [|done].
    apply datetime_new_Ok in Hfirst as (_ & _ & Hmonth & _).
    destruct (timedelta_new 0 1 0) as [delta|e]; [|done].
    destruct (sub first delta) as [last_day_dt|e]; [|done].
    destruct (datetime_new _ _ _ _ _ _) as [compare_dt|e] eqn:Hcompare;
      [|done].
    apply datetime_new_Ok in Hcompare as (-> & _ & _ & Hday & _ & _ & Hsec).
    split; [lia|]. split; [lia|].
    eexists. split; [|reflexivity]. lia.
Qed.

End OlderThan.
End AgeFacts.
